(** * The RAG question-answering pipeline: sanitizer, sandboxed execution,
      retry loop and history distillation.

    A shallow embedding of [rag_pipeline.py] and of the transcript pairing
    loop of [app.py].  Python [str] values are sequences of Unicode code
    points; dictionaries are finite maps; the completion service and the
    Python interpreter behind [exec] are oracles the development is
    parametrised by. *)

From Stdlib Require Import ZArith NArith Ascii String DecimalString.
From stdpp Require Import gmap list.

Local Open Scope N_scope.

(** ** Python strings *)

Module PyStr.

(** A Python [str]: a sequence of code points. *)
Abbreviation pystr := (list N).

(** Literals are written as ASCII strings and read as code points. *)
Definition cps (s : string) : pystr :=
  List.map N_of_ascii (list_ascii_of_string s).

Definition NL : N := 10.
Definition SPACE : N := 32.
Definition DQUOTE : N := 34.
Definition BACKTICK : N := 96.

(** [str.isspace] on one code point, which is also what [\s] matches in a
    [str] pattern: the ASCII table of CPython and the Unicode white space
    beyond it. *)
Definition isspace (c : N) : bool :=
  ((9 <=? c) && (c <=? 13)) || ((28 <=? c) && (c <=? 32))
  || (c =? 133) || (c =? 160) || (c =? 5760)
  || ((8192 <=? c) && (c <=? 8202))
  || (c =? 8232) || (c =? 8233) || (c =? 8239) || (c =? 8287)
  || (c =? 12288).

Definition eqb (a b : pystr) : bool := bool_decide (a = b).

(** Lines of text, each one ended by a newline. *)
Definition unlines (ls : list pystr) : pystr :=
  concat (List.map (fun l => l ++ [NL]) ls).

(** Lines of text joined with newlines. *)
Definition text (ls : list string) : pystr :=
  match ls with
  | [] => []
  | l :: ls' => foldl (fun acc x => acc ++ NL :: cps x) (cps l) ls'
  end.

(** [s.startswith(p)] *)
Fixpoint startswith (p s : pystr) : bool :=
  match p, s with
  | [], _ => true
  | _ :: _, [] => false
  | a :: p', b :: s' => (a =? b) && startswith p' s'
  end.

(** [s.lstrip()], [s.rstrip()], [s.strip()] *)
Fixpoint lstrip (s : pystr) : pystr :=
  match s with
  | c :: t => if isspace c then lstrip t else s
  | [] => []
  end.

Definition rstrip (s : pystr) : pystr := rev (lstrip (rev s)).
Definition strip (s : pystr) : pystr := rstrip (lstrip s).

(** The first occurrence of [sep] in [s]: the text before it and the text
    after it. *)
Fixpoint partition (sep s : pystr) : option (pystr * pystr) :=
  if startswith sep s then Some ([], drop (length sep) s)
  else match s with
       | [] => None
       | c :: t =>
           match partition sep t with
           | Some (a, b) => Some (c :: a, b)
           | None => None
           end
       end.

(** [s.split(sep, 1)]: a list of one or two pieces. *)
Definition split1 (sep s : pystr) : list pystr :=
  match partition sep s with
  | Some (a, b) => [a; b]
  | None => [s]
  end.

(** [s.rsplit(sep, 1)]: the same at the last occurrence, found by reading
    the string from its end. *)
Definition rsplit1 (sep s : pystr) : list pystr :=
  match partition (rev sep) (rev s) with
  | Some (b, a) => [rev a; rev b]
  | None => [s]
  end.

End PyStr.

Import PyStr.

(** ** Regular expressions, as far as [_IMPORT_RE] needs them *)

Module Re.

(** The fragment of [re] syntax the pattern uses, under [re.MULTILINE]. *)
Inductive re : Type :=
| Bol                      (* ^ : start of the text or just after a newline *)
| Lit (l : pystr)          (* a literal string *)
| Star (p : N -> bool)     (* c* for a character class, greedy *)
| Plus (p : N -> bool)     (* c+ for a character class, greedy *)
| Seq (a b : re)
| Alt (a b : re).          (* a|b, the left branch first *)

(** A position in the subject: the character before it ([None] at the
    start of the text) and the text from it on. *)
Definition at_bol (prev : option N) : bool :=
  match prev with
  | None => true
  | Some c => c =? NL
  end.

Fixpoint lit (l : pystr) (prev : option N) (s : pystr)
  : option (option N * pystr) :=
  match l with
  | [] => Some (prev, s)
  | c :: l' =>
      match s with
      | d :: s' => if c =? d then lit l' (Some d) s' else None
      | [] => None
      end
  end.

Section Backtracking.
Context {A : Type}.

  (** Greedy repetition of a class: take as many characters as the class
      allows, and give one back each time the rest of the pattern fails. *)
Fixpoint star (p : N -> bool) (k : option N -> pystr -> option A)
    (prev : option N) (s : pystr) : option A :=
    match s with
    | c :: t =>
        if p c then
          match star p k (Some c) t with
          | Some r => Some r
          | None => k prev s
          end
        else k prev s
    | [] => k prev s
    end.

  (** The backtracking matcher, in continuation-passing style: [k] is the
      rest of the pattern. *)
Fixpoint mtch (r : re) (k : option N -> pystr -> option A)
    (prev : option N) (s : pystr) : option A :=
    match r with
    | Bol => if at_bol prev then k prev s else None
    | Lit l =>
        match lit l prev s with
        | Some (prev', s') => k prev' s'
        | None => None
        end
    | Star p => star p k prev s
    | Plus p =>
        match s with
        | c :: t => if p c then star p k (Some c) t else None
        | [] => None
        end
    | Seq a b => mtch a (fun prev' s' => mtch b k prev' s') prev s
    | Alt a b =>
        match mtch a k prev s with
        | Some x => Some x
        | None => mtch b k prev s
        end
    end.
End Backtracking.

(** [pattern.match] at one position: the text after the match. *)
Definition match_here (r : re) (prev : option N) (s : pystr) : option pystr :=
  mtch r (fun _ rest => Some rest) prev s.

(** [pattern.sub("", s)]: scan left to right, drop every match, copy
    everything else.  [skip] counts the characters of the current match
    still to be dropped.  (An empty match deletes nothing.) *)
Fixpoint sub_del (r : re) (skip : nat) (prev : option N) (s : pystr) : pystr :=
  match s with
  | [] => []
  | c :: t =>
      match skip with
      | S n => sub_del r n (Some c) t
      | O =>
          match match_here r prev s with
          | Some rest =>
              match (length s - length rest)%nat with
              | S n => sub_del r n (Some c) t
              | O => c :: sub_del r 0 (Some c) t
              end
          | None => c :: sub_del r 0 (Some c) t
          end
      end
  end.

End Re.

(** ** The code sanitizer *)

(** [_IMPORT_RE = re.compile(r"^\s*(import |from \S+ import )", re.MULTILINE)] *)
Definition _IMPORT_RE : Re.re :=
  Re.Seq Re.Bol
    (Re.Seq (Re.Star isspace)
       (Re.Alt (Re.Lit (cps "import "))
          (Re.Seq (Re.Lit (cps "from "))
             (Re.Seq (Re.Plus (fun c => negb (isspace c)))
                (Re.Lit (cps " import ")))))).

(** [_sanitize_code(code) = _IMPORT_RE.sub("", code)] *)
Definition _sanitize_code (code : pystr) : pystr :=
  Re.sub_del _IMPORT_RE 0 None code.

(** ** Data model *)

(** The identity of a table object in the store. *)
Abbreviation loc := positive.

(** A raised exception: whether it is an instance of [Exception] (and not
    only of [BaseException]), and the text [traceback] prints for it after
    the header line. *)
Record pyexn : Type := PyExn {
  exn_is_Exception : bool;
  exn_text : pystr
}.

(** A role-tagged message of a completion request. *)
Record message : Type := Message {
  role : pystr;
  content : pystr
}.

(** One resolved exchange of the conversation, as [ask] receives it. *)
Record turn : Type := Turn {
  t_question : pystr;
  t_answer : pystr;
  t_code : pystr;
  t_data : option pystr          (* read with [turn.get("data", "")] *)
}.

(** A message of the chat transcript kept by the user interface. *)
Record chat_msg : Type := ChatMsg {
  m_role : pystr;
  m_content : pystr;
  m_code : option pystr;         (* read with [.get("code", "")] *)
  m_data : option pystr          (* read with [.get("data", "")] *)
}.

(** The dictionary [ask] returns. *)
Record response : Type := Response {
  r_answer : pystr;
  r_code : pystr;
  r_data : pystr;
  r_error : option pystr
}.

(** Exceptions the pipeline's own statements raise. *)
Definition IndexError : pyexn :=
  PyExn true (cps "IndexError: list index out of range").

Definition KeyError (key : pystr) : pyexn :=
  PyExn true (cps "KeyError: " ++ key).

(** ** The schema description *)

Module DataLoader.

(** What [get_schema_description] reads of a column and of a table. *)
Record column : Type := Column {
  c_name : pystr;
  c_dtype : pystr;       (* [str(df[col].dtype)] *)
  c_unique : pystr       (* [str(df[col].unique().tolist())] *)
}.

Record table : Type := Table {
  tb_columns : list column;      (* [df.columns] *)
  tb_len : nat;                  (* [len(df)] *)
  tb_head : pystr                (* [df.head(3).to_string(index=False)] *)
}.

(** [str(n)] for a length. *)
Definition str_of_nat (n : nat) : pystr :=
  cps (NilEmpty.string_of_uint (Nat.to_uint n)).

(** [df[name]] *)
Definition get_column (df : table) (name : pystr) : pyexn + column :=
  match List.find (fun c => eqb (c_name c) name) (tb_columns df) with
  | Some c => inr c
  | None => inl (KeyError name)
  end.

(** The line of extra metadata of a table (lines 43-48). *)
Definition unique_line (name : pystr) (df : table) : pyexn + list pystr :=
  if eqb name (cps "clients") then
    match get_column df (cps "country") with
    | inl e => inl e
    | inr c => inr [cps "  Unique countries: " ++ c_unique c]
    end
  else if eqb name (cps "invoices") then
    match get_column df (cps "status") with
    | inl e => inl e
    | inr c => inr [cps "  Unique statuses: " ++ c_unique c]
    end
  else if eqb name (cps "line_items") then
    match get_column df (cps "service_name") with
    | inl e => inl e
    | inr c => inr [cps "  Unique services: " ++ c_unique c]
    end
  else inr [].

Definition column_line (c : column) : pystr :=
  cps "    - " ++ c_name c ++ cps " (" ++ c_dtype c ++ cps ")".

(** The lines one table adds (lines 33-49). *)
Definition table_lines (dfs : gmap pystr table) (name key : pystr)
  : pyexn + list pystr :=
  match dfs !! key with
  | None => inl (KeyError key)
  | Some df =>
      match unique_line name df with
      | inl e => inl e
      | inr extra =>
          inr ([cps "Table: " ++ name ++ cps " (variable name: " ++ name ++ cps ")";
                cps "  Rows: " ++ str_of_nat (tb_len df);
                cps "  Columns:"]
               ++ List.map column_line (tb_columns df)
               ++ [cps "  Sample rows:"; tb_head df]
               ++ extra ++ [[]])
      end
  end.

(** The loop over the three tables (lines 31-49). *)
Fixpoint tables_lines (dfs : gmap pystr table) (names : list (pystr * pystr))
  (lines : list pystr) : pyexn + list pystr :=
  match names with
  | [] => inr lines
  | (name, key) :: names' =>
      match table_lines dfs name key with
      | inl e => inl e
      | inr ls => tables_lines dfs names' (lines ++ ls)
      end
  end.

Definition TRAILER : list pystr := [
  cps "=== RELATIONSHIPS ===";
  cps "- invoices.client_id -> clients.client_id";
  cps "- line_items.invoice_id -> invoices.invoice_id";
  [];
  cps "=== COMPUTATION NOTES ===";
  cps "- Line total (including tax) = quantity * unit_price * (1 + tax_rate)";
  cps "- To convert to USD: multiply local-currency amount by fx_rate_to_usd";
  cps "- 'Total billed amount' = sum of line totals across all invoices for a client.";
  cps "- Always include tax unless the question says otherwise.";
  cps "- For geographic/regional questions (e.g. 'European clients'), use your general knowledge to classify the countries listed above."
].

(** [sep.join(lines)] *)
Fixpoint join (sep : pystr) (lines : list pystr) : pystr :=
  match lines with
  | [] => []
  | [l] => l
  | l :: ls => l ++ sep ++ join sep ls
  end.

Definition schema_lines (dfs : gmap pystr table) : pyexn + list pystr :=
  match tables_lines dfs
          [(cps "clients", cps "clients"); (cps "invoices", cps "invoices");
           (cps "line_items", cps "line_items")]
          [cps "=== DATABASE SCHEMA ===" ++ [NL]] with
  | inl e => inl e
  | inr lines => inr (lines ++ TRAILER)
  end.

Definition get_schema_description (dfs : gmap pystr table) : pyexn + pystr :=
  match schema_lines dfs with
  | inl e => inl e
  | inr lines => inr (join [NL] lines)
  end.

End DataLoader.

(** Python values the pipeline handles. *)
Inductive pyval (series : Type) : Type :=
| VNone
| VStr (s : pystr)
| VDataFrame (l : loc)                   (* a reference into the store *)
| VSeries (s : series)
| VModule (name : pystr)
| VBuiltins (d : gmap pystr pystr)       (* name |-> attribute of [builtins] *)
| VObj (str : pystr).                    (* anything else, with its [str()] *)

Arguments VNone {series}.
Arguments VStr {series} s.
Arguments VDataFrame {series} l.
Arguments VSeries {series} s.
Arguments VModule {series} name.
Arguments VBuiltins {series} d.
Arguments VObj {series} str.

(** How an [exec] call ends: with the namespace as the code left it, or with
    an exception. *)
Inductive outcome (series : Type) : Type :=
| Finished (ns : gmap pystr (pyval series))
| Raised (e : pyexn).

Arguments Finished {series} ns.
Arguments Raised {series} e.

(** The collaborators outside the pipeline. *)
Class Externals : Type := {
  frame : Type;
  series : Type;
  (** the completion service: the answer to the [n]-th request *)
  complete : nat -> list message -> pyexn + pystr;
  (** the interpreter: the outcome of [exec(code, ns)] on a store, and the
      table objects it wrote or created *)
  py_exec : pystr -> gmap pystr (pyval series) -> gmap loc frame
            -> outcome series * gmap loc frame;
  (** the interpreter again: what the dictionary under [ns["__builtins__"]],
      which is the one shared [_SAFE_BUILTINS] object, holds when
      [exec(code, ns)] ends *)
  py_exec_builtins : pystr -> gmap pystr (pyval series) -> gmap loc frame
                     -> gmap pystr pystr;
  (** [DataFrame.to_string(index=False)] and [Series.to_string()] *)
  frame_to_string : frame -> pystr;
  series_to_string : series -> pystr;
  (** [str()] of the remaining objects *)
  obj_str : pyval series -> pystr;
  (** [hasattr(builtins, name)] *)
  hasattr_builtins : pystr -> bool;
  (** [Groq(api_key=api_key)]: the exception it raises, if it raises *)
  groq_client : pystr -> option pyexn;
  (** [load_dataframes()]: clients, invoices, line items, or the exception
      of a read that failed *)
  load_dataframes : pyexn + (frame * frame * frame);
  (** what pandas reports of a table to [get_schema_description] *)
  frame_view : frame -> DataLoader.table
}.

Abbreviation value := (pyval series).
Abbreviation namespace := (gmap pystr (pyval series)).
Abbreviation store := (gmap loc frame).

Section World.
Context `{E : Externals}.

(** What the pipeline did to the outside world. *)
Inductive event : Type :=
| EvComplete (messages : list message) (resp : pyexn + pystr)
| EvExec (code : pystr) (ns : namespace) (out : outcome series).

(** The table objects, the log, and what the module-level dictionary
    [_SAFE_BUILTINS] holds now. *)
Record world : Type := World {
  heap : store;
  log : list event;
  builtins : gmap pystr pystr
}.

(** ** Effects: a state and exception monad over the world *)

Definition M (A : Type) : Type := world -> (pyexn + A) * world.

Definition ret {A} (a : A) : M A := fun w => (inr a, w).

Definition throw {A} (e : pyexn) : M A := fun w => (inl e, w).

Definition bind {A B} (m : M A) (k : A -> M B) : M B :=
  fun w =>
    match m w with
    | (inr a, w') => k a w'
    | (inl e, w') => (inl e, w')
    end.

End World.

Declare Scope py_scope.
Delimit Scope py_scope with py.
Notation "x <- c ;; k" := (bind c (fun x => k))
  (at level 100, c at next level, right associativity) : py_scope.

Local Open Scope py_scope.

(** ** Prompt templates *)

(** [CODE_GEN_SYSTEM.format(schema=schema)] *)
Definition CODE_GEN_SYSTEM (schema : pystr) : pystr :=
  unlines [
    cps "You are a data analyst. Given the schema below, write Python/pandas code that answers the user's question.";
    [];
    schema;
    [];
    cps "The DataFrames `clients`, `invoices`, and `line_items` are already loaded. pandas is available as `pd`, numpy as `np`, and the `datetime` module is available as `datetime`. Do NOT import anything or read files.";
    [];
    cps "Output ONLY valid Python code (no markdown, no explanations). Store the final answer in a variable called `result` (DataFrame, Series, scalar, or string).";
    [];
    cps "Key rules:";
    cps "- Use pd.Timestamp for date comparisons.";
    cps "- Line total including tax = quantity * unit_price * (1 + tax_rate).";
    cps "- Do NOT use print().";
    cps "- If the question asks to " ++ DQUOTE :: cps "list" ++ DQUOTE
      :: cps " something, make result a DataFrame.";
    [];
    cps "If conversation history is provided and the user refers to a previous answer ("
      ++ DQUOTE :: cps "which of those" ++ DQUOTE :: cps ", "
      ++ DQUOTE :: cps "from them" ++ DQUOTE
      :: cps ", etc.), use the prior context to understand what they mean and write code accordingly."
  ].

Definition ANSWER_GEN_SYSTEM : pystr :=
  unlines [
    cps "You are a business data analyst. A code-based retrieval step already ran that filtered and computed the relevant data for the user's question. The data below is the result -- trust that it already reflects any filters (date ranges, regions, etc.) implied by the question.";
    [];
    cps "Answer using ONLY this data. Use markdown tables for tabular data. Never invent numbers. If the data is empty, say so.";
    [];
    cps "If there's conversation history, use it to understand follow-up references."
  ].

Definition FENCE : pystr := [BACKTICK; BACKTICK; BACKTICK].

Definition TRUNCATED : pystr := NL :: cps "... (truncated)".

Definition NO_RESULT : pystr := cps "No `result` variable was set.".

Definition APOLOGY : pystr :=
  cps "Sorry, I couldn't retrieve the data. Try rephrasing your question.".

Definition ROLE_SYSTEM : pystr := cps "system".
Definition ROLE_USER : pystr := cps "user".
Definition ROLE_ASSISTANT : pystr := cps "assistant".

(** The names listed for [_SAFE_BUILTINS]. *)
Definition SAFE_NAMES : list pystr :=
  List.map cps [
    "abs"; "all"; "any"; "bool"; "dict"; "enumerate"; "filter"; "float";
    "frozenset"; "getattr"; "hasattr"; "int"; "isinstance"; "issubclass";
    "iter"; "len"; "list"; "map"; "max"; "min"; "next"; "print"; "range";
    "reversed"; "round"; "set"; "slice"; "sorted"; "str"; "sum"; "tuple";
    "type"; "zip";
    "Exception"; "ValueError"; "TypeError"; "KeyError"; "IndexError";
    "AttributeError"; "ZeroDivisionError"; "RuntimeError";
    "True"; "False"; "None"
  ]%string.

(** [traceback.format_exc()] while [e] is being handled. *)
Definition format_exc (e : pyexn) : pystr :=
  cps "Traceback (most recent call last):" ++ NL :: exn_text e.

(** ** The pipeline *)

(** A [RAGPipeline] instance: the model identifier, the canonical tables
    (as references into the store) and the schema text. *)
Record pipeline : Type := Pipeline {
  p_model : pystr;
  p_dfs : gmap pystr loc;
  p_schema : pystr
}.

Section Pipeline.
Context `{E : Externals}.

(** *** Primitive effects *)

Definition is_completion (ev : event) : bool :=
  match ev with EvComplete _ _ => true | EvExec _ _ _ => false end.

Definition is_exec (ev : event) : bool :=
  match ev with EvExec _ _ _ => true | EvComplete _ _ => false end.

Definition count_completions (l : list event) : nat :=
  length (List.filter is_completion l).

Definition count_execs (l : list event) : nat :=
  length (List.filter is_exec l).

(** [self.client.chat.completions.create(...)]: one request to the service;
    a failure of the service is raised. *)
Definition chat_completion (messages : list message) : M pystr :=
  fun w =>
    let resp := complete (count_completions (log w)) messages in
    (resp, World (heap w) (log w ++ [EvComplete messages resp]) (builtins w)).

(** [d[key]] on the table dictionary. *)
Definition dfs_get (dfs : gmap pystr loc) (key : pystr) : M loc :=
  match dfs !! key with
  | Some l => ret l
  | None => throw (KeyError key)
  end.

(** Reading a table object of the store. *)
Definition deref (l : loc) : M frame :=
  fun w =>
    match heap w !! l with
    | Some d => (inr d, w)
    | None => (inl (PyExn true (cps "ReferenceError")), w)
    end.

(** [df.copy()]: a new object with the same contents. *)
Definition copy (l : loc) : M loc :=
  d <- deref l ;;
  fun w =>
    let l' := fresh (dom (heap w)) in
    (inr l', World (<[l' := d]> (heap w)) (log w) (builtins w)).

(** [exec(code, ns)]: the interpreter runs on the current store; the objects
    it wrote or created replace or extend the store, and the shared
    dictionary of builtins is left as the code left it. *)
Definition exec (code : pystr) (ns : namespace) : M (outcome series) :=
  fun w =>
    let '(out, written) := py_exec code ns (heap w) in
    (inr out,
     World (written ∪ heap w) (log w ++ [EvExec code ns out])
       (py_exec_builtins code ns (heap w))).

(** Reading the module-level name [_SAFE_BUILTINS]: the shared dictionary,
    with what it holds now. *)
Definition safe_builtins : M (gmap pystr pystr) :=
  fun w => (inr (builtins w), w).

(** *** [__init__] *)

Definition init (api_key model : pystr) : M pipeline :=
  fun w =>
    match groq_client api_key with
    | Some e => (inl e, w)
    | None =>
        match load_dataframes with
        | inl e => (inl e, w)
        | inr (clients, invoices, line_items) =>
            let lc := fresh (dom (heap w)) in
            let h1 := <[lc := clients]> (heap w) in
            let li := fresh (dom h1) in
            let h2 := <[li := invoices]> h1 in
            let ll := fresh (dom h2) in
            let h3 := <[ll := line_items]> h2 in
            let w' := World h3 (log w) (builtins w) in
            match DataLoader.get_schema_description
                    (<[cps "line_items" := frame_view line_items]>
                       (<[cps "invoices" := frame_view invoices]>
                          {[ cps "clients" := frame_view clients ]})) with
            | inl e => (inl e, w')
            | inr schema =>
                (inr (Pipeline model
                        (<[cps "line_items" := ll]>
                           (<[cps "invoices" := li]> {[ cps "clients" := lc ]}))
                        schema),
                 w')
            end
        end
    end.

(** *** [_generate_code] *)

(** The excerpt of a turn's data shown to the model (lines 92-93). *)
Definition preview_of (preview : pystr) : pystr :=
  if (2000 <? length preview)%nat then take 2000 preview ++ TRUNCATED
  else preview.

Definition code_returned (preview : pystr) : pystr :=
  cps "[Code returned:" ++ NL :: FENCE ++ NL :: preview ++ NL :: FENCE ++ cps "]".

(** The messages one turn of the history appends (lines 87-97). *)
Definition turn_messages (t : turn) : list message :=
  let preview := default [] (t_data t) in
  [Message ROLE_USER (t_question t); Message ROLE_ASSISTANT (t_code t)]
  ++ match preview with
     | [] => []
     | _ :: _ => [Message ROLE_USER (code_returned (preview_of preview))]
     end.

(** The request of [_generate_code] (lines 83-99). *)
Definition code_gen_messages (schema question : pystr)
  (history : option (list turn)) : list message :=
  let messages := [Message ROLE_SYSTEM (CODE_GEN_SYSTEM schema)] in
  let messages :=
    foldl (fun messages t => messages ++ turn_messages t) messages
      (default [] history) in
  messages ++ [Message ROLE_USER question].

(** Removing the fence around the answer (lines 104-108). *)
Definition unfence (resp : pystr) : pyexn + pystr :=
  let code := strip resp in
  if startswith FENCE code then
    match split1 [NL] code !! 1%nat with
    | None => inl IndexError
    | Some code =>
        match rsplit1 FENCE code !! 0%nat with
        | None => inl IndexError
        | Some code => inr code
        end
    end
  else inr code.

Definition _generate_code (self : pipeline) (question : pystr)
  (history : option (list turn)) : M pystr :=
  resp <- chat_completion (code_gen_messages (p_schema self) question history) ;;
  match unfence resp with
  | inl e => throw e
  | inr code => ret code
  end.

(** *** [_execute_code] *)

(** What [_SAFE_BUILTINS] holds when the module has been imported: the
    listed names that [builtins] has. *)
Definition _SAFE_BUILTINS : gmap pystr pystr :=
  foldl (fun d name => if hasattr_builtins name then <[name := name]> d else d)
    ∅ SAFE_NAMES.

(** [self.dfs[name].copy()] *)
Definition copy_table (self : pipeline) (name : pystr) : M loc :=
  l <- dfs_get (p_dfs self) name ;;
  copy l.

(** The dictionary literal bound to [ns] (lines 123-129), given the three
    copies. *)
Definition namespace_of (safe : gmap pystr pystr)
  (clients invoices line_items : loc) : namespace :=
  <[cps "line_items" := VDataFrame line_items]>
  (<[cps "invoices" := VDataFrame invoices]>
  (<[cps "clients" := VDataFrame clients]>
  (<[cps "datetime" := VModule (cps "datetime")]>
  (<[cps "np" := VModule (cps "numpy")]>
  (<[cps "pd" := VModule (cps "pandas")]>
  ({[ cps "__builtins__" := VBuiltins safe ]})))))).

Definition exec_namespace (self : pipeline) : M namespace :=
  safe <- safe_builtins ;;
  clients <- copy_table self (cps "clients") ;;
  invoices <- copy_table self (cps "invoices") ;;
  line_items <- copy_table self (cps "line_items") ;;
  ret (namespace_of safe clients invoices line_items).

Definition _execute_code (self : pipeline) (code : pystr)
  : M (value * option pystr) :=
  let code := _sanitize_code code in
  ns <- exec_namespace self ;;
  out <- exec code ns ;;
  match out with
  | Finished ns' => ret (default (VStr NO_RESULT) (ns' !! cps "result"), None)
  | Raised e =>
      if exn_is_Exception e then ret (VNone, Some (format_exc e))
      else throw e
  end.

(** *** [_generate_answer] *)

Definition answer_messages (question data_str : pystr)
  (history : option (list turn)) : list message :=
  let messages := [Message ROLE_SYSTEM ANSWER_GEN_SYSTEM] in
  let messages :=
    foldl (fun messages t =>
             messages ++ [Message ROLE_USER (t_question t);
                          Message ROLE_ASSISTANT (t_answer t)])
      messages (default [] history) in
  messages ++ [Message ROLE_USER
                 (cps "**Question:** " ++ question ++ [NL; NL]
                  ++ cps "**Retrieved data:**" ++ NL :: FENCE ++ NL
                  :: data_str ++ NL :: FENCE)].

Definition _generate_answer (self : pipeline) (question data_str : pystr)
  (history : option (list turn)) : M pystr :=
  resp <- chat_completion (answer_messages question data_str history) ;;
  ret (strip resp).

(** *** [ask] *)

(** [str(result)] *)
Definition py_str (v : value) : pystr :=
  match v with
  | VStr s => s
  | VNone => cps "None"
  | VObj s => s
  | _ => obj_str v
  end.

(** The rendering of a result (lines 177-182). *)
Definition render (result : value) : M pystr :=
  match result with
  | VDataFrame l => d <- deref l ;; ret (frame_to_string d)
  | VSeries s => ret (series_to_string s)
  | _ => ret (py_str result)
  end.

Definition fix_prompt (last_error question : pystr) : pystr :=
  cps "The previous code raised an error:" ++ NL :: last_error ++ [NL; NL]
  ++ cps "Original question: " ++ question ++ [NL; NL]
  ++ cps "Please fix the code.".

(** The [for _ in range(max_retries)] loop with the variables it carries,
    and the exhaustion response after it. *)
Fixpoint ask_loop (self : pipeline) (n : nat) (question : pystr)
  (history : option (list turn)) (last_error : option pystr) (code : pystr)
  : M response :=
  match n with
  | O => ret (Response APOLOGY code [] last_error)
  | S n' =>
      code <- _generate_code self
                (match last_error with
                 | None => question
                 | Some err => fix_prompt err question
                 end) history ;;
      re <- _execute_code self code ;;
      let '(result, error) := re in
      match error with
      | Some err => ask_loop self n' question history (Some err) code
      | None =>
          data_str <- render result ;;
          answer <- _generate_answer self question data_str history ;;
          ret (Response answer code data_str None)
      end
  end.

Definition ask (self : pipeline) (question : pystr)
  (history : option (list turn)) (max_retries : Z) : M response :=
  let history := Some (default [] history) in
  ask_loop self (Z.to_nat max_retries) question history None [].

End Pipeline.

(** ** The history distiller of the chat interface *)

Module App.

(** The dictionary appended to [chat_history] (lines 63-68). *)
Definition make_turn (q a : chat_msg) : turn :=
  Turn (m_content q) (m_content a)
    (default [] (m_code a)) (Some (default [] (m_data a))).

Definition is_pair (q a : chat_msg) : bool :=
  eqb (m_role q) ROLE_USER && eqb (m_role a) ROLE_ASSISTANT.

(** The [while i < len(msgs) - 1] loop; every iteration advances [i], so
    [len(msgs)] iterations are enough to leave it. *)
Fixpoint pairing_loop (fuel : nat) (msgs : list chat_msg) (i : nat)
  (chat_history : list turn) : list turn :=
  match fuel with
  | O => chat_history
  | S fuel' =>
      if (Z.of_nat i <? Z.of_nat (length msgs) - 1)%Z then
        match msgs !! i, msgs !! (i + 1)%nat with
        | Some q, Some a =>
            if is_pair q a
            then pairing_loop fuel' msgs (i + 2) (chat_history ++ [make_turn q a])
            else pairing_loop fuel' msgs (i + 1) chat_history
        | _, _ => chat_history
        end
      else chat_history
  end.

Definition build_history (msgs : list chat_msg) : list turn :=
  pairing_loop (length msgs) msgs 0 [].

(** The contract in the words of the specification: every message that is a
    user message immediately followed by an assistant message gives one
    turn, in transcript order; nothing else gives a turn. *)
Definition adjacent_pairs (msgs : list chat_msg) : list turn :=
  omap (fun qa => if is_pair qa.1 qa.2 then Some (make_turn qa.1 qa.2) else None)
    (zip msgs (tail msgs)).

(** The same loop by recursion on the transcript, used to reason about it. *)
Fixpoint pairs (msgs : list chat_msg) : list turn :=
  match msgs with
  | q :: ((a :: rest) as tl) =>
      if is_pair q a then make_turn q a :: pairs rest else pairs tl
  | _ => []
  end.

End App.

(** ** Properties of the environment and the store, as predicates *)

(** The dictionary a namespace holds under [__builtins__]. *)
Definition builtins_of {series : Type} (ns : gmap pystr (pyval series))
  : gmap pystr pystr :=
  match ns !! cps "__builtins__" with
  | Some (VBuiltins d) => d
  | _ => ∅
  end.

Section Predicates.
Context `{E : Externals}.

Definition TABLES : list pystr :=
  [cps "clients"; cps "invoices"; cps "line_items"].

Definition LIBRARIES : list pystr := [cps "pd"; cps "np"; cps "datetime"].

(** The pipeline's canonical tables are objects of the store. *)
Definition loaded (self : pipeline) (w : world) : Prop :=
  Forall (fun name => exists l, p_dfs self !! name = Some l
                                /\ is_Some (heap w !! l)) TABLES.

(** Name resolution in code run by [exec(code, ns)]: the globals [ns], then
    the dictionary under [ns["__builtins__"]]. *)
Definition resolve (ns : namespace) (name : pystr) : option value :=
  match ns !! name with
  | Some v => Some v
  | None =>
      match ns !! cps "__builtins__" with
      | Some (VBuiltins d) => VObj <$> d !! name
      | _ => None
      end
  end.

(** Names that would give the code file, import or evaluation access. *)
Definition FORBIDDEN : list pystr :=
  List.map cps ["open"; "__import__"; "eval"; "exec"; "compile"]%string.

(** What the evaluated code can name, and what each name is bound to: a
    listed builtin, bound to the attribute of [builtins] of that name; [pd],
    [np] and [datetime], bound to those modules; a table name, bound to a
    table object; and [__builtins__], bound to a dictionary of listed
    builtins. None of the forbidden names resolves. *)
Definition env_allowed (ns : namespace) : Prop :=
  (forall name v, resolve ns name = Some v ->
     (name ∈ SAFE_NAMES /\ v = VObj name)
     \/ (name = cps "pd" /\ v = VModule (cps "pandas"))
     \/ (name = cps "np" /\ v = VModule (cps "numpy"))
     \/ (name = cps "datetime" /\ v = VModule (cps "datetime"))
     \/ (name ∈ TABLES /\ exists c, v = VDataFrame c)
     \/ (name = cps "__builtins__"
         /\ exists d, v = VBuiltins d
                      /\ forall n a, d !! n = Some a -> n ∈ SAFE_NAMES /\ a = n))
  /\ Forall (fun name => resolve ns name = None) FORBIDDEN.

(** The claim that the environment of every execution is the allow-list,
    whatever ran before. *)
Definition every_execution_allowed (self : pipeline) (code : pystr)
  (w : world) : Prop :=
  loaded self w ->
  exists ns out,
    log (_execute_code self code w).2
    = log w ++ [EvExec (_sanitize_code code) ns out]
    /\ env_allowed ns.

(** The claim that whatever the evaluation raises is caught and reported. *)
Definition catches_every_exception (self : pipeline) (code : pystr)
  (w : world) : Prop :=
  forall ns w1 e written,
    exec_namespace self w = (inr ns, w1) ->
    py_exec (_sanitize_code code) ns (heap w1) = (Raised e, written) ->
    exists trace w',
      _execute_code self code w = (inr (VNone, Some trace), w')
      /\ trace <> [].

(** The interpreter changes an object that existed before the call only if
    the namespace binds it. *)
Definition confined : Prop :=
  forall code (ns : namespace) (h : store) l,
    l ∈ dom h -> (forall k, ns !! k <> Some (VDataFrame l)) ->
    (py_exec code ns h).2 !! l = None.

(** Every answer of the completion service is code whose execution raises
    an [Exception]. *)
Definition always_fails : Prop :=
  forall n messages, exists resp code,
    complete n messages = inr resp /\ unfence resp = inr code /\
    forall (ns : namespace) (h : store), exists e,
      (py_exec (_sanitize_code code) ns h).1 = Raised e
      /\ exn_is_Exception e = true.


(** The store after running the fragments of [codes] one after the other. *)
Definition after_executions (self : pipeline) (codes : list pystr) (w : world)
  : world :=
  foldl (fun w code => (_execute_code self code w).2) w codes.

End Predicates.

(** ** A concrete instance of the collaborators *)

Module Demo.

Definition CODE_DIV : pystr := cps "result = 1/0".
Definition CODE_BASE : pystr := cps "raise Exception.__base__()".
Definition CODE_DROP : pystr := cps "clients.drop(clients.index, inplace=True)".
Definition CODE_X : pystr := cps "x = 1".

(** An interpreter that knows five programs: the empty one, an assignment,
    one that empties the [clients] table in place, one that raises a bare
    [BaseException], and (everything else) a division by zero. *)
Definition demo_exec (code : pystr) (ns : gmap pystr (pyval (list Z)))
  (h : gmap loc (list (list Z)))
  : outcome (list Z) * gmap loc (list (list Z)) :=
  if eqb code [] then (Finished ns, ∅)
  else if eqb code CODE_X then (Finished (<[cps "x" := VObj (cps "1")]> ns), ∅)
  else if eqb code CODE_DROP then
    match ns !! cps "clients" with
    | Some (VDataFrame l) =>
        (Finished ns, if bool_decide (l ∈ dom h) then {[ l := [] ]} else ∅)
    | _ => (Raised (PyExn true (cps "NameError: name 'clients' is not defined")), ∅)
    end
  else if eqb code CODE_BASE then (Raised (PyExn false (cps "BaseException")), ∅)
  else (Raised (PyExn true (cps "ZeroDivisionError: division by zero")), ∅).

(** None of the five programs touches the dictionary of builtins. *)
Definition demo_exec_builtins (code : pystr) (ns : gmap pystr (pyval (list Z)))
  (h : gmap loc (list (list Z))) : gmap pystr pystr :=
  builtins_of ns.

(** What is reported of a demonstration table: three text columns. *)
Definition demo_view (f : list (list Z)) : DataLoader.table :=
  DataLoader.Table
    [DataLoader.Column (cps "country") (cps "object") (cps "['UK']");
     DataLoader.Column (cps "status") (cps "object") (cps "['Paid']");
     DataLoader.Column (cps "service_name") (cps "object") (cps "['Audit']")]
    (length f) (cps "(rows)").

Definition demo : Externals := {|
  frame := list (list Z);
  series := list Z;
  complete := fun _ _ => inr CODE_DIV;
  py_exec := demo_exec;
  py_exec_builtins := demo_exec_builtins;
  frame_to_string := fun _ => cps "<table>";
  series_to_string := fun _ => cps "<series>";
  obj_str := fun _ => cps "<object>";
  hasattr_builtins := fun _ => true;
  groq_client := fun _ => None;
  load_dataframes := inr ([[1; 2]], [[3]], [[4; 5; 6]])%Z;
  frame_view := demo_view
|}.

Definition p0 : pipeline :=
  Pipeline (cps "llama-3.3-70b-versatile")
    (<[cps "line_items" := 3%positive]>
       (<[cps "invoices" := 2%positive]> {[ cps "clients" := 1%positive ]}))
    (cps "=== DATABASE SCHEMA ===").

Definition w0 : @world demo :=
  @World demo
    (<[3%positive := [[4; 5; 6]]%Z]>
       (<[2%positive := [[3]]%Z]> {[ 1%positive := [[1; 2]]%Z ]}))
    [] (@_SAFE_BUILTINS demo).

Definition long_data : pystr := replicate 2001 97%N.

Definition t0 : turn :=
  Turn (cps "List all clients") (cps "(a table)") (cps "result = clients")
    (Some long_data).

End Demo.

(** ** The chat page around [ask] *)

Module Chat.
Import App.

(** The message appended for a submitted prompt (line 53). *)
Definition user_msg (prompt : pystr) : chat_msg :=
  ChatMsg ROLE_USER prompt None None.

(** The message appended after [ask] returned (lines 88-93). *)
Definition assistant_msg (result : response) : chat_msg :=
  ChatMsg ROLE_ASSISTANT (r_answer result)
    (Some (r_code result)) (Some (r_data result)).

(** One submitted prompt (lines 53-93): the transcript afterwards, and the
    exception if [ask] raised one (the user message is already appended
    then). *)
Definition submit `{E : Externals} (self : pipeline) (msgs : list chat_msg)
  (prompt : pystr) : world -> (list chat_msg * option pyexn) * world :=
  fun w =>
    let msgs := msgs ++ [user_msg prompt] in
    let chat_history := build_history msgs in
    match ask self prompt (Some chat_history) 2 w with
    | (inr result, w') => ((msgs ++ [assistant_msg result], None), w')
    | (inl e, w') => ((msgs, Some e), w')
    end.

(** What happened to one prompt: answered, or left without an answer. *)
Inductive exchange : Type :=
| Answered (prompt : pystr) (result : response)
| Unanswered (prompt : pystr).

Definition exchange_msgs (x : exchange) : list chat_msg :=
  match x with
  | Answered prompt result => [user_msg prompt; assistant_msg result]
  | Unanswered prompt => [user_msg prompt]
  end.

Definition transcript_of (xs : list exchange) : list chat_msg :=
  concat (List.map exchange_msgs xs).

Definition exchange_turn (x : exchange) : option turn :=
  match x with
  | Answered prompt result =>
      Some (Turn prompt (r_answer result) (r_code result) (Some (r_data result)))
  | Unanswered _ => None
  end.

End Chat.

(** ** The batch runner *)

Module RunTests.

Definition PIPE : N := 124.
Definition BACKSLASH : N := 92.

Definition QUESTIONS : list pystr := [
  cps "List all clients with their industries.";
  cps "Which clients are based in the UK?";
  cps "List all invoices issued in March 2024 with their statuses.";
  cps "Which invoices are currently marked as " ++ DQUOTE :: cps "Overdue"
    ++ DQUOTE :: cps "?";
  cps "For each service_name in InvoiceLineItems, how many line items are there?";
  cps "List all invoices for Acme Corp with their invoice IDs, invoice dates, due dates, and statuses.";
  cps "Show all invoices issued to Bright Legal in February 2024, including their status and currency.";
  cps "For invoice I1001, list all line items with service name, quantity, unit price, tax rate, and compute the line total (including tax) for each.";
  cps "For each client, compute the total amount billed in 2024 (including tax) across all their invoices.";
  cps "Which client has the highest total billed amount in 2024, and what is that total?";
  cps "Across all clients, which three services generated the most revenue in 2024? Show the total revenue per service.";
  cps "Which invoices are overdue as of 2024-12-31? List invoice ID, client name, invoice_date, due_date, and status.";
  cps "Group revenue by client country: for each country, compute the total billed amount in 2024 (including tax).";
  cps "For the service " ++ DQUOTE :: cps "Contract Review" ++ DQUOTE
    :: cps ", list all clients who purchased it and the total amount they paid for that service (including tax).";
  cps "Considering only European clients, what are the top 3 services by total revenue (including tax) in H2 2024 (2024-07-01 to 2024-12-31)?"
].

(** [s.replace(old, new)] for a one-character [old]. *)
Definition replace_char (old : N) (new : pystr) (s : pystr) : pystr :=
  concat (List.map (fun c => if c =? old then new else [c]) s).

(** Line 42: the answer, or the error when there is a non-empty one. *)
Definition shown_answer (result : response) : pystr :=
  match r_error result with
  | Some (c :: t) => cps "ERROR: " ++ c :: t
  | _ => r_answer result
  end.

(** Lines 51-53: one row of the table. *)
Definition a_esc (a : pystr) : pystr :=
  replace_char NL (cps "<br>") (replace_char PIPE [BACKSLASH; PIPE] a).

Definition q_esc (q : pystr) : pystr :=
  replace_char PIPE [BACKSLASH; PIPE] q.

Definition table_row (qa : pystr * pystr) : pystr :=
  cps "| " ++ q_esc qa.1 ++ cps " | " ++ a_esc qa.2 ++ cps " |" ++ [NL].

(** Lines 47-53: the text written to [test_results.md]. *)
Definition report (rows : list (pystr * pystr)) : pystr :=
  (cps "# Test Results" ++ [NL; NL])
  ++ (cps "| Question | Answer |" ++ [NL])
  ++ (cps "|----------|--------|" ++ [NL])
  ++ concat (List.map table_row rows).

(** Lines 38-44: every question is asked with the defaults of [ask]. *)
Fixpoint ask_all `{E : Externals} (self : pipeline) (qs : list pystr)
  : M (list (pystr * pystr)) :=
  match qs with
  | [] => ret []
  | q :: qs' =>
      result <- ask self q None 2 ;;
      rows <- ask_all self qs' ;;
      ret ((q, shown_answer result) :: rows)
  end.

(** [main()], from the key check on; what is printed is left out.
    [sys.exit(1)] raises [SystemExit]. *)
Definition main `{E : Externals} (api_key : pystr) : M pystr :=
  match api_key with
  | [] => throw (PyExn false (cps "SystemExit: 1"))
  | _ :: _ =>
      pipeline <- init api_key (cps "llama-3.3-70b-versatile") ;;
      rows <- ask_all pipeline QUESTIONS ;;
      ret (report rows)
  end.

End RunTests.

(** [sub in s] *)
Fixpoint str_in (sub s : pystr) : bool :=
  startswith sub s
  || match s with
     | [] => false
     | _ :: t => str_in sub t
     end.

(** ** More instances of the collaborators *)

Module Services.

(** The demonstration instance with another completion service. *)
Definition with_complete (c : nat -> list message -> pyexn + pystr)
  : Externals := {|
  frame := list (list Z);
  series := list Z;
  complete := c;
  py_exec := Demo.demo_exec;
  py_exec_builtins := Demo.demo_exec_builtins;
  frame_to_string := fun _ => cps "<table>";
  series_to_string := fun _ => cps "<series>";
  obj_str := fun _ => cps "<object>";
  hasattr_builtins := fun _ => true;
  groq_client := fun _ => None;
  load_dataframes := inr ([[1; 2]], [[3]], [[4; 5; 6]])%Z;
  frame_view := Demo.demo_view
|}.

Definition w0 (c : nat -> list message -> pyexn + pystr)
  : @world (with_complete c) :=
  @World (with_complete c)
    (<[3%positive := [[4; 5; 6]]%Z]>
       (<[2%positive := [[3]]%Z]> {[ 1%positive := [[1; 2]]%Z ]}))
    [] (@_SAFE_BUILTINS (with_complete c)).

(** A service that answers with an opening fence and nothing else. *)
Definition only_fence : nat -> list message -> pyexn + pystr :=
  fun _ _ => inr (FENCE ++ cps "python").

(** A service that is down. *)
Definition down : nat -> list message -> pyexn + pystr :=
  fun _ _ => inl (PyExn true (cps "groq.APIConnectionError: Connection error.")).

(** A service that always answers with the assignment [x = 1]. *)
Definition assigns_x : nat -> list message -> pyexn + pystr :=
  fun _ _ => inr Demo.CODE_X.


End Services.

(** ** An interpreter that runs code which extends the allow-list *)

Module Leak.

(** [print.__self__] is the [builtins] module. *)
Definition CODE_OPEN : pystr :=
  cps "__builtins__['open'] = print.__self__.open".

(** Every program runs to its end and changes no table. *)
Definition leak_exec (code : pystr) (ns : gmap pystr (pyval (list Z)))
  (h : gmap loc (list (list Z)))
  : outcome (list Z) * gmap loc (list (list Z)) :=
  (Finished ns, ∅).

(** [CODE_OPEN] adds [open] to the dictionary it finds under
    [__builtins__]; the other programs leave it. *)
Definition leak_exec_builtins (code : pystr)
  (ns : gmap pystr (pyval (list Z))) (h : gmap loc (list (list Z)))
  : gmap pystr pystr :=
  if eqb code CODE_OPEN then <[cps "open" := cps "open"]> (builtins_of ns)
  else builtins_of ns.

Definition leak : Externals := {|
  frame := list (list Z);
  series := list Z;
  complete := fun _ _ => inr CODE_OPEN;
  py_exec := leak_exec;
  py_exec_builtins := leak_exec_builtins;
  frame_to_string := fun _ => cps "<table>";
  series_to_string := fun _ => cps "<series>";
  obj_str := fun _ => cps "<object>";
  hasattr_builtins := fun _ => true;
  groq_client := fun _ => None;
  load_dataframes := inr ([[1; 2]], [[3]], [[4; 5; 6]])%Z;
  frame_view := Demo.demo_view
|}.

(** The world just after import: the tables loaded, nothing run yet. *)
Definition w0 : @world leak :=
  @World leak
    (<[3%positive := [[4; 5; 6]]%Z]>
       (<[2%positive := [[3]]%Z]> {[ 1%positive := [[1; 2]]%Z ]}))
    [] (@_SAFE_BUILTINS leak).

End Leak.

(** What is required of an event of the log: code given to [exec] is an
    output of the sanitizer, and its namespace is the dictionary literal of
    [_execute_code] for some content of the shared dictionary and some three
    table objects. *)
Definition exec_event_ok `{E : Externals} (ev : event) : Prop :=
  match ev with
  | EvExec code ns _ =>
      (exists raw, code = _sanitize_code raw)
      /\ exists safe c i l, ns = namespace_of safe c i l
  | EvComplete _ _ => True
  end.

(** The fragment finishes in every namespace the pipeline builds and on
    every store, and leaves no [result]. *)
Definition runs_without_result `{E : Externals} (code : pystr) : Prop :=
  forall (safe : gmap pystr pystr) (c i l : loc) (h : store),
  exists ns' written,
    py_exec (_sanitize_code code) (namespace_of safe c i l) h
    = (Finished ns', written)
    /\ ns' !! cps "result" = None.


(** The completion service answers every request. *)
Definition service_answers `{E : Externals} : Prop :=
  forall n messages, exists resp, complete n messages = inr resp.


(** The number of newline characters of a text. *)
Definition newlines (s : pystr) : nat :=
  length (List.filter (fun c => c =? NL) s).

(** Every [|] of the text has a backslash just before it. *)
Definition pipes_escaped (s : pystr) : Prop :=
  forall pre post, s = pre ++ RunTests.PIPE :: post ->
    exists pre', pre = pre' ++ [RunTests.BACKSLASH].

(** Three small tables to describe. *)
Module Tables.
Import DataLoader.

Definition clients : table :=
  Table [Column (cps "client_id") (cps "object") (cps "['C001', 'C002']");
         Column (cps "country") (cps "object") (cps "['UK', 'Germany']")]
    2 (cps "C001 UK").

Definition invoices : table :=
  Table [Column (cps "invoice_id") (cps "object") (cps "['I1001']");
         Column (cps "status") (cps "object") (cps "['Paid']")]
    1 (cps "I1001 Paid").

Definition line_items : table :=
  Table [Column (cps "service_name") (cps "object") (cps "['Contract Review']");
         Column (cps "quantity") (cps "int64") (cps "[3]")]
    1 (cps "Contract Review 3").

Definition dfs : gmap pystr table :=
  <[cps "line_items" := line_items]>
    (<[cps "invoices" := invoices]> {[ cps "clients" := clients ]}).

(** The same with a [clients] table that has no [country] column. *)
Definition dfs_no_country : gmap pystr table :=
  <[cps "clients" :=
      Table [Column (cps "client_id") (cps "object") (cps "['C001']")]
        1 (cps "C001")]> dfs.

End Tables.

(** * Theorems *)

Example sanitize_plain :
  _sanitize_code (text ["x = 1"; "result = x + 1"]%string)
  = text ["x = 1"; "result = x + 1"]%string.
Proof. vm_compute. reflexivity. Qed.

Example sanitize_from :
  _sanitize_code (text ["from os import path"; "result = 1"]%string)
  = text ["path"; "result = 1"]%string.
Proof. vm_compute. reflexivity. Qed.

Example sanitize_blank_lines :
  _sanitize_code (text ["x = 1"; ""; ""; "  import os"]%string)
  = text ["x = 1"; "os"]%string.
Proof. vm_compute. reflexivity. Qed.

Example unfence_fenced :
  unfence (text ["```python"; "result = 1"; "```"]%string)
  = inr (text ["result = 1"; ""]%string).
Proof. vm_compute. reflexivity. Qed.

Example unfence_no_newline : unfence (cps "```") = inl IndexError.
Proof. vm_compute. reflexivity. Qed.

(** ** The code sanitizer *)

(** C1: the sanitizer deletes the import keyword and the white space before
    it, not the import line: the imported module's name stays behind. *)
Theorem sanitize_leaves_rest_of_import_line :
  _sanitize_code (text ["import os"; "x = 1"]%string)
  = text ["os"; "x = 1"]%string.
Proof. vm_compute. reflexivity. Qed.

(** C7: sanitizing is not idempotent: a line that starts with the keyword
    twice loses one keyword in each pass. *)
Theorem sanitize_twice_differs :
  _sanitize_code (cps "import import os") = cps "import os"
  /\ _sanitize_code (_sanitize_code (cps "import import os")) = cps "os"
  /\ _sanitize_code (_sanitize_code (cps "import import os"))
     <> _sanitize_code (cps "import import os").
Proof. vm_compute. repeat split; congruence. Qed.

(** A fragment in which the pattern matches nowhere is returned unchanged. *)
Lemma sub_del_no_match (r : Re.re) (s : pystr) (prev : option N) :
  (forall pre c post, s = pre ++ c :: post ->
     Re.match_here r (last (match prev with Some p => p :: pre | None => pre end))
       (c :: post) = None) ->
  Re.sub_del r 0 prev s = s.
Proof.
  revert prev. induction s as [|c t IH]; intros prev H; [reflexivity|].
  cbn [Re.sub_del].
  pose proof (H [] c t eq_refl) as H0.
  destruct prev as [p|]; cbn in H0; rewrite H0; f_equal; apply IH;
    intros pre c' post ->.
  - specialize (H (c :: pre) c' post eq_refl).
    change (p :: c :: pre) with ([p] ++ c :: pre) in H.
    rewrite last_app_cons in H. exact H.
  - specialize (H (c :: pre) c' post eq_refl). exact H.
Qed.

Lemma sanitize_no_import_lines (code : pystr) :
  (forall pre c post, code = pre ++ c :: post ->
     Re.match_here _IMPORT_RE (last pre) (c :: post) = None) ->
  _sanitize_code code = code.
Proof. intros H. apply sub_del_no_match. exact H. Qed.

(** ** The retry loop without budget *)

Section AskNoBudget.
Context `{E : Externals}.

(** C10: with a budget of zero or less, [ask] requests nothing and executes
    nothing (the world is unchanged) and returns the apology with empty code
    and data and no error. *)
Theorem ask_without_budget (self : pipeline) (question : pystr)
  (history : option (list turn)) (max_retries : Z) (w : world) :
  (max_retries <= 0)%Z ->
  ask self question history max_retries w
  = (inr (Response APOLOGY [] [] None), w).
Proof.
  intros Hn. unfold ask.
  replace (Z.to_nat max_retries) with 0%nat by lia.
  reflexivity.
Qed.

End AskNoBudget.

Lemma ask_without_budget_witness :
  @ask Demo.demo Demo.p0 (cps "How many clients?") None 0 Demo.w0
  = (inr (Response APOLOGY [] [] None), Demo.w0)
  /\ @ask Demo.demo Demo.p0 (cps "How many clients?") None (-3) Demo.w0
     = (inr (Response APOLOGY [] [] None), Demo.w0).
Proof.
  split.
  - apply (@ask_without_budget Demo.demo). lia.
  - apply (@ask_without_budget Demo.demo). lia.
Defined.

(** ** The history distiller *)

Section Distiller.
Import App.

Lemma pairs_two (q a : chat_msg) (rest : list chat_msg) :
  pairs (q :: a :: rest)
  = if is_pair q a then make_turn q a :: pairs rest else pairs (a :: rest).
Proof. reflexivity. Qed.

Lemma is_pair_assistant_first (q a b : chat_msg) :
  is_pair q a = true -> is_pair a b = false.
Proof.
  unfold is_pair, eqb. intros H.
  apply andb_true_iff in H as [_ Ha]. apply bool_decide_eq_true in Ha.
  rewrite Ha. reflexivity.
Qed.

Lemma adjacent_pairs_two (q a : chat_msg) (rest : list chat_msg) :
  adjacent_pairs (q :: a :: rest)
  = (if is_pair q a then [make_turn q a] else []) ++ adjacent_pairs (a :: rest).
Proof. unfold adjacent_pairs. cbn. destruct (is_pair q a); reflexivity. Qed.

Lemma pairs_adjacent_bounded (n : nat) (msgs : list chat_msg) :
  (length msgs <= n)%nat -> pairs msgs = adjacent_pairs msgs.
Proof.
  revert msgs. induction n as [|n IH]; intros msgs Hlen.
  - destruct msgs; [reflexivity | cbn in Hlen; lia].
  - destruct msgs as [|q [|a rest]]; [reflexivity | reflexivity |].
    rewrite pairs_two, adjacent_pairs_two.
    cbn in Hlen.
    destruct (is_pair q a) eqn:Hqa.
    + cbn [app]. f_equal.
      rewrite (IH rest) by lia.
      destruct rest as [|b rest']; [reflexivity|].
      rewrite adjacent_pairs_two, (is_pair_assistant_first q a b Hqa).
      reflexivity.
    + cbn [app]. apply IH. cbn. lia.
Qed.

Lemma pairing_loop_pairs (fuel : nat) (msgs : list chat_msg) (i : nat)
  (acc : list turn) :
  (length msgs - i <= fuel)%nat ->
  pairing_loop fuel msgs i acc = acc ++ pairs (drop i msgs).
Proof.
  revert i acc. induction fuel as [|fuel IH]; intros i acc Hfuel; cbn [pairing_loop].
  - rewrite drop_ge by lia. cbn. rewrite app_nil_r. reflexivity.
  - destruct (Z.ltb_spec (Z.of_nat i) (Z.of_nat (length msgs) - 1)) as [Hlt|Hge].
    + destruct (lookup_lt_is_Some_2 msgs i ltac:(lia)) as [q Hq].
      destruct (lookup_lt_is_Some_2 msgs (i + 1) ltac:(lia)) as [a Ha].
      rewrite Hq, Ha.
      assert (drop (i + 1) msgs = a :: drop (i + 2) msgs) as Hdrop1.
      { replace (i + 2)%nat with (S (i + 1)) by lia. apply drop_S, Ha. }
      assert (drop i msgs = q :: a :: drop (i + 2) msgs) as Hdrop.
      { rewrite (drop_S msgs q i Hq).
        replace (S i) with (i + 1)%nat by lia. rewrite Hdrop1. reflexivity. }
      rewrite Hdrop, pairs_two.
      destruct (is_pair q a).
      * rewrite IH by lia. rewrite <- app_assoc. reflexivity.
      * rewrite IH by lia. rewrite Hdrop1. reflexivity.
    + destruct (drop i msgs) as [|x [|y rest]] eqn:Hdrop; cbn;
        try (rewrite app_nil_r; reflexivity).
      apply (f_equal length) in Hdrop. rewrite length_drop in Hdrop.
      cbn in Hdrop. lia.
Qed.

Lemma build_history_pairs (msgs : list chat_msg) :
  build_history msgs = pairs msgs.
Proof.
  unfold build_history. rewrite pairing_loop_pairs by lia. reflexivity.
Qed.

(** C6: the distilled history is the list of turns made of every user
    message immediately followed by an assistant message, in transcript
    order, each with the code and data of that assistant message; a
    transcript Q1 A1 Q2 A2 Q3 gives the two turns (Q1,A1) and (Q2,A2). *)
Theorem build_history_sequential_pairs :
  (forall msgs, build_history msgs = adjacent_pairs msgs)
  /\ (forall q1 a1 c1 d1 q2 a2 c2 d2 q3,
        build_history
          [ChatMsg ROLE_USER q1 None None;
           ChatMsg ROLE_ASSISTANT a1 (Some c1) (Some d1);
           ChatMsg ROLE_USER q2 None None;
           ChatMsg ROLE_ASSISTANT a2 (Some c2) (Some d2);
           ChatMsg ROLE_USER q3 None None]
        = [Turn q1 a1 c1 (Some d1); Turn q2 a2 c2 (Some d2)]).
Proof.
  split.
  - intros msgs. rewrite build_history_pairs.
    apply (pairs_adjacent_bounded (length msgs)). lia.
  - intros. reflexivity.
Qed.

End Distiller.

(** ** The code-synthesis prompt *)

Lemma foldl_append {A B : Type} (f : B -> list A) (l : list B) (acc : list A) :
  foldl (fun ms t => ms ++ f t) acc l = acc ++ concat (List.map f l).
Proof.
  revert acc. induction l as [|t l IH]; intros acc; cbn.
  - rewrite app_nil_r. reflexivity.
  - rewrite IH, <- app_assoc. reflexivity.
Qed.

(** Where the messages of one turn stand in the prompt. *)
Lemma code_gen_messages_turn (schema question : pystr) (history : list turn)
  (t : turn) :
  t ∈ history ->
  exists before after,
    code_gen_messages schema question (Some history)
    = before ++ turn_messages t ++ after.
Proof.
  intros Hin. apply list_elem_of_split in Hin as (pre & post & ->).
  unfold code_gen_messages.
  change (default [] (Some (pre ++ t :: post))) with (pre ++ t :: post).
  rewrite foldl_append, List.map_app, concat_app. cbn [List.map concat].
  eexists (_ :: concat (List.map turn_messages pre)), _.
  rewrite <- !app_assoc. cbn. reflexivity.
Qed.

(** C8: for every turn of the history the prompt holds, after the turn's
    question and code, one user message with the excerpt between the words
    [Code returned:] and a fenced block: an excerpt longer than 2000
    characters is shown as its first 2000 characters followed by a line
    break and the marker [... (truncated)]; an excerpt of at most 2000
    characters is shown in full, with nothing after it but the closing
    fence (an empty one adds no message). *)
Theorem prompt_truncates_long_excerpt (schema question : pystr)
  (history : list turn) (t : turn) :
  t ∈ history ->
  let d := default [] (t_data t) in
  let shown (excerpt : pystr) : message :=
    Message (cps "user")
      (cps "[Code returned:" ++ NL :: cps "```" ++ NL
         :: excerpt ++ NL :: cps "```" ++ cps "]") in
  let asked := Message (cps "user") (t_question t) in
  let coded := Message (cps "assistant") (t_code t) in
  ((2000 < length d)%nat ->
     length (take 2000 d) = 2000%nat
     /\ exists before after,
          code_gen_messages schema question (Some history)
          = before
            ++ [asked; coded;
                shown (take 2000 d ++ NL :: cps "... (truncated)")]
            ++ after)
  /\ ((0 < length d <= 2000)%nat ->
      exists before after,
        code_gen_messages schema question (Some history)
        = before ++ [asked; coded; shown d] ++ after)
  /\ (d = [] ->
      exists before after,
        code_gen_messages schema question (Some history)
        = before ++ [asked; coded] ++ after).
Proof.
  intros Hin d shown asked coded.
  destruct (code_gen_messages_turn schema question history t Hin)
    as (before & after & Hprompt).
  rewrite Hprompt. unfold turn_messages, preview_of. fold d.
  split; [|split].
  - intros Hlen. split; [rewrite length_take; lia|].
    exists before, after. do 2 f_equal.
    destruct d as [|c d']; [cbn in Hlen; lia|].
    destruct (Nat.ltb_spec 2000 (length (c :: d'))); [reflexivity | lia].
  - intros Hlen. exists before, after. do 2 f_equal.
    destruct d as [|c d']; [cbn in Hlen; lia|].
    destruct (Nat.ltb_spec 2000 (length (c :: d'))); [lia | reflexivity].
  - intros Hd. exists before, after. rewrite Hd. reflexivity.
Qed.

Lemma prompt_truncates_long_excerpt_witness :
  Demo.t0 ∈ [Demo.t0]
  /\ exists before after,
       code_gen_messages (cps "schema") (cps "Which of those?") (Some [Demo.t0])
       = before
         ++ [Message (cps "user") (cps "List all clients");
             Message (cps "assistant") (cps "result = clients");
             Message (cps "user")
               (cps "[Code returned:" ++ NL :: cps "```" ++ NL
                  :: (replicate 2000 97%N ++ NL :: cps "... (truncated)")
                  ++ NL :: cps "```" ++ cps "]")]
         ++ after.
Proof.
  pose proof (prompt_truncates_long_excerpt (cps "schema")
                (cps "Which of those?") [Demo.t0] Demo.t0
                ltac:(apply list_elem_of_here)) as (Hlong & _ & _).
  split; [apply list_elem_of_here|].
  apply Hlong. vm_compute. lia.
Defined.

(** ** The sandboxed execution engine *)

Section Execution.
Context `{E : Externals}.

(** [w'] has every object of [w], unchanged. *)
Definition preserves (w w' : world) : Prop :=
  forall x, x ∈ dom (heap w) -> heap w' !! x = heap w !! x.

Lemma preserves_refl (w : world) : preserves w w.
Proof. intros x _. reflexivity. Qed.

Lemma preserves_dom (w w' : world) (x : loc) :
  preserves w w' -> x ∈ dom (heap w) -> x ∈ dom (heap w').
Proof.
  intros Hp Hx. apply elem_of_dom. rewrite (Hp x Hx). apply elem_of_dom, Hx.
Qed.

Lemma preserves_trans (w1 w2 w3 : world) :
  preserves w1 w2 -> preserves w2 w3 -> preserves w1 w3.
Proof.
  intros H12 H23 x Hx. rewrite (H23 x), (H12 x); auto.
  eapply preserves_dom; eauto.
Qed.

Lemma loaded_preserved (self : pipeline) (w w' : world) :
  preserves w w' -> loaded self w -> loaded self w'.
Proof.
  intros Hp H. unfold loaded in *. eapply Forall_impl; [exact H|].
  intros name (l & Hl & Hs). exists l. split; [exact Hl|].
  rewrite (Hp l); [exact Hs | apply elem_of_dom, Hs].
Qed.

Lemma loaded_lookup (self : pipeline) (w : world) (name : pystr) :
  loaded self w -> name ∈ TABLES ->
  exists l d, p_dfs self !! name = Some l /\ heap w !! l = Some d.
Proof.
  unfold loaded. rewrite Forall_forall. intros H Hin.
  destruct (H name Hin) as (l & Hl & d & Hd). eauto.
Qed.

(** What a copy does to the world. *)
Lemma copy_table_spec (self : pipeline) (name : pystr) (w : world) :
  log (copy_table self name w).2 = log w
  /\ preserves w (copy_table self name w).2
  /\ forall c, (copy_table self name w).1 = inr c ->
       (c ∉ dom (heap w))
       /\ exists l, p_dfs self !! name = Some l
                    /\ is_Some (heap w !! l)
                    /\ heap (copy_table self name w).2 !! c = heap w !! l.
Proof.
  unfold copy_table, dfs_get, copy, deref, bind, ret, throw.
  destruct (p_dfs self !! name) as [l|] eqn:Hl; cbn.
  2: { split; [reflexivity|]. split; [apply preserves_refl|]. intros c [=]. }
  destruct (heap w !! l) as [d|] eqn:Hd; cbn.
  2: { split; [reflexivity|]. split; [apply preserves_refl|]. intros c [=]. }
  pose proof (is_fresh (dom (heap w))) as Hfresh.
  split; [reflexivity|]. split.
  - intros x Hx. cbn. apply lookup_insert_ne. intros Heq. subst x. contradiction.
  - intros c [= <-]. split; [exact Hfresh|].
    exists l. rewrite Hd. split; [first [reflexivity | exact Hl]|].
    split; [eauto|]. cbn. rewrite lookup_insert_eq. reflexivity.
Qed.

Lemma copy_table_builtins (self : pipeline) (name : pystr) (w : world) :
  builtins (copy_table self name w).2 = builtins w.
Proof.
  unfold copy_table, dfs_get, copy, deref, bind, ret, throw.
  destruct (p_dfs self !! name) as [l|]; [|reflexivity].
  destruct (heap w !! l) as [d|]; reflexivity.
Qed.

Lemma copy_table_loaded (self : pipeline) (name : pystr) (w : world) :
  loaded self w -> name ∈ TABLES ->
  exists c, (copy_table self name w).1 = inr c.
Proof.
  intros Hl Hin. destruct (loaded_lookup self w name Hl Hin) as (l & d & Hp & Hd).
  unfold copy_table, dfs_get, copy, deref, bind, ret, throw.
  rewrite Hp. cbn. rewrite Hd. cbn. eauto.
Qed.

(** The three copies of one execution: new objects holding what the
    canonical tables hold. *)
Record fresh_copies (self : pipeline) (w w1 : world) (c i l : loc) : Prop := {
  fc_new : (c ∉ dom (heap w)) /\ (i ∉ dom (heap w)) /\ (l ∉ dom (heap w));
  fc_clients : exists lc, p_dfs self !! cps "clients" = Some lc
                          /\ heap w1 !! c = heap w !! lc;
  fc_invoices : exists li, p_dfs self !! cps "invoices" = Some li
                           /\ heap w1 !! i = heap w !! li;
  fc_line_items : exists ll, p_dfs self !! cps "line_items" = Some ll
                             /\ heap w1 !! l = heap w !! ll
}.

Lemma exec_namespace_spec (self : pipeline) (w : world) :
  log (exec_namespace self w).2 = log w
  /\ preserves w (exec_namespace self w).2
  /\ forall ns, (exec_namespace self w).1 = inr ns ->
       exists safe c i l, ns = namespace_of safe c i l
                     /\ (c ∉ dom (heap w)) /\ (i ∉ dom (heap w))
                     /\ (l ∉ dom (heap w)).
Proof.
  unfold exec_namespace, bind, ret, safe_builtins. cbn beta iota.
  pose proof (copy_table_spec self (cps "clients") w) as (Hlog1 & Hp1 & Hc1).
  destruct (copy_table self (cps "clients") w) as [[e|c] w1] eqn:E1;
    cbn [fst snd] in *.
  { split; [exact Hlog1|]. split; [exact Hp1|]. intros ns [=]. }
  pose proof (copy_table_spec self (cps "invoices") w1) as (Hlog2 & Hp2 & Hc2).
  destruct (copy_table self (cps "invoices") w1) as [[e|i] w2] eqn:E2;
    cbn [fst snd] in *.
  { split; [congruence|]. split; [eapply preserves_trans; eauto|]. intros ns [=]. }
  pose proof (copy_table_spec self (cps "line_items") w2) as (Hlog3 & Hp3 & Hc3).
  destruct (copy_table self (cps "line_items") w2) as [[e|l] w3] eqn:E3;
    cbn [fst snd] in *.
  { split; [congruence|]. split; [do 2 (eapply preserves_trans; eauto)|].
    intros ns [=]. }
  assert (preserves w w2) as Hp12 by (eapply preserves_trans; eauto).
  split; [congruence|]. split; [eapply preserves_trans; eauto|].
  intros ns [= <-]. exists (builtins w), c, i, l. split; [reflexivity|].
  destruct (Hc1 c eq_refl) as (Hnc & _).
  destruct (Hc2 i eq_refl) as (Hni & _).
  destruct (Hc3 l eq_refl) as (Hnl & _).
  split; [exact Hnc|]. split.
  - intros Hin. apply Hni. eapply preserves_dom; eauto.
  - intros Hin. apply Hnl. eapply preserves_dom; eauto.
Qed.

Lemma copy_table_loaded_spec (self : pipeline) (name : pystr) (w0 w : world) :
  loaded self w0 -> preserves w0 w -> name ∈ TABLES ->
  exists c w1 l,
    copy_table self name w = (inr c, w1)
    /\ log w1 = log w
    /\ preserves w w1
    /\ p_dfs self !! name = Some l
    /\ heap w1 !! c = heap w0 !! l
    /\ c ∈ dom (heap w1)
    /\ (c ∉ dom (heap w))
    /\ builtins w1 = builtins w.
Proof.
  intros Hl Hp Hin.
  destruct (loaded_lookup self w0 name Hl Hin) as (l & d & Hpl & Hd).
  assert (loaded self w) as Hlw by (eapply loaded_preserved; eauto).
  destruct (copy_table_loaded self name w Hlw Hin) as [c Hc].
  pose proof (copy_table_builtins self name w) as Hb.
  pose proof (copy_table_spec self name w) as (Hlog & Hp1 & Hc1).
  destruct (copy_table self name w) as [r w1]; cbn [fst snd] in *. subst r.
  destruct (Hc1 c eq_refl) as (Hnew & l' & Hl' & _ & Hv).
  assert (l' = l) as -> by congruence.
  assert (heap w !! l = heap w0 !! l) as Hwl.
  { apply Hp. apply elem_of_dom. eauto. }
  exists c, w1, l. split; [reflexivity|]. split; [exact Hlog|].
  split; [exact Hp1|]. split; [exact Hpl|].
  split; [congruence|]. split; [|split; [exact Hnew | exact Hb]].
  apply elem_of_dom. rewrite Hv, Hwl, Hd. eauto.
Qed.

Lemma exec_namespace_loaded (self : pipeline) (w : world) :
  loaded self w ->
  exists safe c i l w1,
    exec_namespace self w = (inr (namespace_of safe c i l), w1)
    /\ log w1 = log w /\ preserves w w1 /\ fresh_copies self w w1 c i l
    /\ safe = builtins w /\ builtins w1 = builtins w.
Proof.
  intros Hl. unfold exec_namespace, bind, ret, safe_builtins. cbn beta iota.
  destruct (copy_table_loaded_spec self (cps "clients") w w Hl
              (preserves_refl w))
    as (c & w1 & lc & -> & Hlog1 & Hp1 & Hlc & Hvc & Hcin & Hcnew & Hb1);
    [unfold TABLES; set_solver|].
  destruct (copy_table_loaded_spec self (cps "invoices") w w1 Hl Hp1)
    as (i & w2 & li & -> & Hlog2 & Hp2 & Hli & Hvi & Hiin & Hinew & Hb2);
    [unfold TABLES; set_solver|].
  assert (preserves w w2) as Hp02 by (eapply preserves_trans; eauto).
  destruct (copy_table_loaded_spec self (cps "line_items") w w2 Hl Hp02)
    as (l & w3 & ll & -> & Hlog3 & Hp3 & Hll & Hvl & Hlin & Hlnew & Hb3);
    [unfold TABLES; set_solver|].
  exists (builtins w), c, i, l, w3. split; [reflexivity|]. split; [congruence|].
  split; [eapply preserves_trans; eauto|].
  split; [|split; [reflexivity | congruence]].
  constructor.
  - split; [exact Hcnew|]. split.
    + intros Hin. apply Hinew. eapply preserves_dom; eauto.
    + intros Hin. apply Hlnew. eapply preserves_dom; eauto.
  - exists lc. split; [exact Hlc|].
    rewrite (Hp3 c) by exact (preserves_dom w1 w2 c Hp2 Hcin).
    rewrite (Hp2 c) by exact Hcin. exact Hvc.
  - exists li. split; [exact Hli|]. rewrite (Hp3 i) by exact Hiin. exact Hvi.
  - exists ll. split; [exact Hll|]. exact Hvl.
Qed.

End Execution.

Section Sandbox.
Context `{E : Externals}.

Lemma foldl_builtins_lookup (names : list pystr) (d : gmap pystr pystr)
  (name v : pystr) :
  foldl (fun d n => if hasattr_builtins n then <[n := n]> d else d) d names
    !! name = Some v ->
  d !! name = Some v \/ name ∈ names.
Proof.
  revert d. induction names as [|n names IH]; intros d H; cbn in H.
  - left. exact H.
  - apply IH in H as [H|H]; [|right; set_solver].
    destruct (hasattr_builtins n); [|left; exact H].
    apply lookup_insert_Some in H as [[<- _]|[_ H]];
      [right; set_solver | left; exact H].
Qed.

Lemma safe_builtins_unfold :
  foldl (fun d n => if hasattr_builtins n then <[n := n]> d else d) ∅ SAFE_NAMES
  = _SAFE_BUILTINS.
Proof. exact (eq_refl _). Qed.

Lemma safe_builtins_lookup (name : pystr) :
  is_Some (_SAFE_BUILTINS !! name) -> name ∈ SAFE_NAMES.
Proof.
  intros [v Hv]. rewrite <- safe_builtins_unfold in Hv.
  destruct (foldl_builtins_lookup SAFE_NAMES ∅ name v Hv) as [Hv'|Hv'];
    [|exact Hv'].
  rewrite lookup_empty in Hv'. discriminate.
Qed.

Lemma namespace_of_lookup (safe : gmap pystr pystr) (c i l : loc) (k : pystr) (v : value) :
  namespace_of safe c i l !! k = Some v ->
  (k ∈ TABLES /\ (v = VDataFrame c \/ v = VDataFrame i \/ v = VDataFrame l))
  \/ (k ∈ LIBRARIES /\ exists m, v = VModule m)
  \/ (k = cps "__builtins__" /\ v = VBuiltins safe).
Proof.
  unfold namespace_of, TABLES, LIBRARIES. intros H.
  apply lookup_insert_Some in H as [[<- <-]|[_ H]];
    [left; split; [set_solver | auto]|].
  apply lookup_insert_Some in H as [[<- <-]|[_ H]];
    [left; split; [set_solver | auto]|].
  apply lookup_insert_Some in H as [[<- <-]|[_ H]];
    [left; split; [set_solver | auto]|].
  apply lookup_insert_Some in H as [[<- <-]|[_ H]];
    [right; left; split; [set_solver | eauto]|].
  apply lookup_insert_Some in H as [[<- <-]|[_ H]];
    [right; left; split; [set_solver | eauto]|].
  apply lookup_insert_Some in H as [[<- <-]|[_ H]];
    [right; left; split; [set_solver | eauto]|].
  apply lookup_singleton_Some in H as [<- <-]. right; right. split; reflexivity.
Qed.

Lemma namespace_of_builtins (safe : gmap pystr pystr) (c i l : loc) :
  namespace_of safe c i l !! cps "__builtins__" = Some (VBuiltins safe).
Proof.
  unfold namespace_of.
  repeat (rewrite lookup_insert_ne by (vm_compute; discriminate)).
  apply lookup_singleton_eq.
Qed.

Lemma namespace_of_frames (safe : gmap pystr pystr) (c i l x : loc) (k : pystr) :
  namespace_of safe c i l !! k = Some (VDataFrame x) -> x = c \/ x = i \/ x = l.
Proof.
  intros H. apply namespace_of_lookup in H as [[_ H]|[[_ [m H]]|[_ H]]];
    [|discriminate|discriminate].
  destruct H as [H|[H|H]]; injection H; auto.
Qed.

Lemma forbidden_not_allowed :
  Forall (fun name => name ∉ SAFE_NAMES ++ LIBRARIES ++ TABLES ++ [cps "__builtins__"])
    FORBIDDEN.
Proof.
  apply (bool_decide_eq_true_1 _). vm_compute. reflexivity.
Qed.

Lemma namespace_of_lookup_exact (safe : gmap pystr pystr) (c i l : loc)
  (k : pystr) (v : value) :
  namespace_of safe c i l !! k = Some v ->
  (k = cps "line_items" /\ v = VDataFrame l)
  \/ (k = cps "invoices" /\ v = VDataFrame i)
  \/ (k = cps "clients" /\ v = VDataFrame c)
  \/ (k = cps "datetime" /\ v = VModule (cps "datetime"))
  \/ (k = cps "np" /\ v = VModule (cps "numpy"))
  \/ (k = cps "pd" /\ v = VModule (cps "pandas"))
  \/ (k = cps "__builtins__" /\ v = VBuiltins safe).
Proof.
  unfold namespace_of. intros H.
  apply lookup_insert_Some in H as [[<- <-]|[_ H]]; [tauto|].
  apply lookup_insert_Some in H as [[<- <-]|[_ H]]; [tauto|].
  apply lookup_insert_Some in H as [[<- <-]|[_ H]]; [tauto|].
  apply lookup_insert_Some in H as [[<- <-]|[_ H]]; [tauto|].
  apply lookup_insert_Some in H as [[<- <-]|[_ H]]; [tauto|].
  apply lookup_insert_Some in H as [[<- <-]|[_ H]]; [tauto|].
  apply lookup_singleton_Some in H as [<- <-]. tauto.
Qed.

Lemma foldl_builtins_value (names : list pystr) (d : gmap pystr pystr)
  (name v : pystr) :
  foldl (fun d n => if hasattr_builtins n then <[n := n]> d else d) d names
    !! name = Some v ->
  d !! name = Some v \/ (name ∈ names /\ v = name).
Proof.
  revert d. induction names as [|n names IH]; intros d H; cbn in H.
  - left. exact H.
  - apply IH in H as [H|[H ->]]; [|right; split; [set_solver | reflexivity]].
    destruct (hasattr_builtins n); [|left; exact H].
    apply lookup_insert_Some in H as [[<- <-]|[_ H]];
      [right; split; [set_solver | reflexivity] | left; exact H].
Qed.

Lemma safe_builtins_value (name a : pystr) :
  _SAFE_BUILTINS !! name = Some a -> name ∈ SAFE_NAMES /\ a = name.
Proof.
  intros Hv. rewrite <- safe_builtins_unfold in Hv.
  destruct (foldl_builtins_value SAFE_NAMES ∅ name a Hv) as [Hv'|Hv'];
    [|exact Hv'].
  rewrite lookup_empty in Hv'. discriminate.
Qed.

(** With the import-time content of the shared dictionary, the namespace of
    an execution is the allow-list. *)
Lemma namespace_of_allowed (c i l : loc) :
  env_allowed (namespace_of _SAFE_BUILTINS c i l).
Proof.
  assert (forall name v,
            resolve (namespace_of _SAFE_BUILTINS c i l) name = Some v ->
            (name ∈ SAFE_NAMES /\ v = VObj name)
            \/ (name = cps "pd" /\ v = VModule (cps "pandas"))
            \/ (name = cps "np" /\ v = VModule (cps "numpy"))
            \/ (name = cps "datetime" /\ v = VModule (cps "datetime"))
            \/ (name ∈ TABLES /\ exists c, v = VDataFrame c)
            \/ (name = cps "__builtins__"
                /\ exists d, v = VBuiltins d
                             /\ forall n a, d !! n = Some a ->
                                  n ∈ SAFE_NAMES /\ a = n)) as Hres.
  { intros name v. unfold resolve. rewrite namespace_of_builtins.
    destruct (namespace_of _SAFE_BUILTINS c i l !! name) as [v'|] eqn:Hn.
    - intros [= <-].
      apply namespace_of_lookup_exact in Hn
        as [[-> ->]|[[-> ->]|[[-> ->]|[[-> ->]|[[-> ->]|[[-> ->]|[-> ->]]]]]]].
      + do 4 right. left. split; [unfold TABLES; set_solver | eauto].
      + do 4 right. left. split; [unfold TABLES; set_solver | eauto].
      + do 4 right. left. split; [unfold TABLES; set_solver | eauto].
      + tauto.
      + tauto.
      + tauto.
      + do 5 right. split; [reflexivity|].
        exists _SAFE_BUILTINS. split; [reflexivity|].
        apply safe_builtins_value.
    - destruct (_SAFE_BUILTINS !! name) as [a|] eqn:Ha; [|discriminate].
      cbn. intros [= <-]. left.
      destruct (safe_builtins_value name a Ha) as [Hin ->]. auto. }
  split; [exact Hres|].
  eapply Forall_impl; [apply forbidden_not_allowed|].
  intros name Hno. cbn beta in Hno.
  destruct (resolve (namespace_of _SAFE_BUILTINS c i l) name) as [v|] eqn:Hr;
    [|reflexivity].
  exfalso. apply Hno. apply Hres in Hr.
  rewrite !elem_of_app, list_elem_of_singleton. unfold LIBRARIES.
  destruct Hr as [[H _]|[[-> _]|[[-> _]|[[-> _]|[[H _]|[-> _]]]]]];
    auto; right; left; set_solver.
Qed.

(** The log of one execution: its single [exec] call. *)
Lemma execute_code_log (self : pipeline) (code : pystr) (w : world)
  (ns : namespace) (w1 : world) :
  exec_namespace self w = (inr ns, w1) ->
  log (_execute_code self code w).2
  = log w1 ++ [EvExec (_sanitize_code code) ns
                 (py_exec (_sanitize_code code) ns (heap w1)).1].
Proof.
  intros Hns. unfold _execute_code, bind, exec, ret, throw. rewrite Hns.
  destruct (py_exec (_sanitize_code code) ns (heap w1)) as [out written].
  destruct out as [ns'|e]; [reflexivity|].
  destruct (exn_is_Exception e); reflexivity.
Qed.

(** What one execution leaves in the shared dictionary. *)
Lemma execute_code_builtins (self : pipeline) (code : pystr) (w : world)
  (ns : namespace) (w1 : world) :
  exec_namespace self w = (inr ns, w1) ->
  builtins (_execute_code self code w).2
  = py_exec_builtins (_sanitize_code code) ns (heap w1).
Proof.
  intros Hns. unfold _execute_code, bind, exec, ret, throw. rewrite Hns.
  destruct (py_exec (_sanitize_code code) ns (heap w1)) as [out written].
  destruct out as [ns'|e]; [reflexivity|].
  destruct (exn_is_Exception e); reflexivity.
Qed.

(** C9, amended: when the shared dictionary still holds what it held at
    import, the namespace handed to [exec] binds the three table names to
    three new copies of the canonical tables, and resolves only the listed
    builtins (each to the builtin of that name), [pd], [np] and [datetime]
    (to pandas, numpy and datetime), the three table names, and the
    [__builtins__] entry holding the listed builtins; it resolves none of
    [open], [__import__], [eval], [exec], [compile]. *)
Theorem execution_environment_is_allow_list (self : pipeline) (code : pystr)
  (w : world) :
  loaded self w -> builtins w = _SAFE_BUILTINS ->
  exists ns out c i l w1,
    log (_execute_code self code w).2
    = log w ++ [EvExec (_sanitize_code code) ns out]
    /\ env_allowed ns
    /\ exec_namespace self w = (inr ns, w1)
    /\ ns !! cps "clients" = Some (VDataFrame c)
    /\ ns !! cps "invoices" = Some (VDataFrame i)
    /\ ns !! cps "line_items" = Some (VDataFrame l)
    /\ fresh_copies self w w1 c i l.
Proof.
  intros Hl Hb.
  destruct (exec_namespace_loaded self w Hl)
    as (safe & c & i & l & w1 & Hns & Hlog & _ & Hfc & -> & _).
  rewrite Hb in Hns.
  exists (namespace_of _SAFE_BUILTINS c i l),
    (py_exec (_sanitize_code code) (namespace_of _SAFE_BUILTINS c i l)
       (heap w1)).1, c, i, l, w1.
  split.
  { rewrite (execute_code_log self code w _ w1 Hns), Hlog. reflexivity. }
  split; [apply namespace_of_allowed|]. split; [exact Hns|].
  unfold namespace_of.
  split; [|split; [|split; [apply lookup_insert_eq | exact Hfc]]].
  - repeat (rewrite lookup_insert_ne by (vm_compute; discriminate)).
    apply lookup_insert_eq.
  - repeat (rewrite lookup_insert_ne by (vm_compute; discriminate)).
    apply lookup_insert_eq.
Qed.

(** C4: when the evaluation of the sanitized code finishes and leaves no
    [result] in the namespace, the execution returns the placeholder string
    and no error. *)
Theorem missing_result_gives_placeholder (self : pipeline) (code : pystr)
  (w : world) (ns : namespace) (w1 : world) (ns' : namespace)
  (written : store) :
  exec_namespace self w = (inr ns, w1) ->
  py_exec (_sanitize_code code) ns (heap w1) = (Finished ns', written) ->
  ns' !! cps "result" = None ->
  exists w', _execute_code self code w = (inr (VStr NO_RESULT, None), w').
Proof.
  intros Hns Hexec Hres.
  unfold _execute_code, bind, exec, ret. rewrite Hns, Hexec, Hres.
  eexists. reflexivity.
Qed.

(** C5, amended: when the evaluation raises an exception that is an
    instance of [Exception], the execution returns no result and the
    formatted trace, which is not empty. *)
Theorem raised_exception_is_reported (self : pipeline) (code : pystr)
  (w : world) (ns : namespace) (w1 : world) (e : pyexn) (written : store) :
  exec_namespace self w = (inr ns, w1) ->
  py_exec (_sanitize_code code) ns (heap w1) = (Raised e, written) ->
  exn_is_Exception e = true ->
  exists w',
    _execute_code self code w = (inr (VNone, Some (format_exc e)), w')
    /\ format_exc e <> [].
Proof.
  intros Hns Hexec Hexc.
  unfold _execute_code, bind, exec, ret. rewrite Hns, Hexec, Hexc.
  eexists. split; [reflexivity|]. discriminate.
Qed.

(** An exception outside [Exception] is not handled by [_execute_code]. *)
Lemma non_exception_propagates (self : pipeline) (code : pystr)
  (w : world) (ns : namespace) (w1 : world) (e : pyexn) (written : store) :
  exec_namespace self w = (inr ns, w1) ->
  py_exec (_sanitize_code code) ns (heap w1) = (Raised e, written) ->
  exn_is_Exception e = false ->
  exists w', _execute_code self code w = (inl e, w').
Proof.
  intros Hns Hexec Hexc.
  unfold _execute_code, bind, exec, ret, throw. rewrite Hns, Hexec, Hexc.
  eexists. reflexivity.
Qed.

Lemma namespace_of_result (safe : gmap pystr pystr) (c i l : loc) :
  namespace_of safe c i l !! cps "result" = None.
Proof.
  unfold namespace_of.
  repeat (rewrite lookup_insert_ne by (vm_compute; discriminate)).
  apply lookup_singleton_ne. vm_compute. discriminate.
Qed.

End Sandbox.

Lemma demo_loaded : @loaded Demo.demo Demo.p0 Demo.w0.
Proof.
  repeat constructor; eexists; (split; [vm_compute; reflexivity|]);
    vm_compute; eauto.
Qed.

Lemma demo_sanitize_programs :
  _sanitize_code Demo.CODE_X = Demo.CODE_X
  /\ _sanitize_code Demo.CODE_DIV = Demo.CODE_DIV
  /\ _sanitize_code Demo.CODE_BASE = Demo.CODE_BASE
  /\ _sanitize_code Demo.CODE_DROP = Demo.CODE_DROP.
Proof. vm_compute. repeat split; reflexivity. Qed.

Lemma demo_exec_x (ns : gmap pystr (pyval (list Z)))
  (h : gmap loc (list (list Z))) :
  Demo.demo_exec Demo.CODE_X ns h
  = (Finished (<[cps "x" := VObj (cps "1")]> ns), ∅).
Proof. reflexivity. Qed.

Lemma demo_exec_div (ns : gmap pystr (pyval (list Z)))
  (h : gmap loc (list (list Z))) :
  Demo.demo_exec Demo.CODE_DIV ns h
  = (Raised (PyExn true (cps "ZeroDivisionError: division by zero")), ∅).
Proof. reflexivity. Qed.

Lemma demo_exec_base (ns : gmap pystr (pyval (list Z)))
  (h : gmap loc (list (list Z))) :
  Demo.demo_exec Demo.CODE_BASE ns h
  = (Raised (PyExn false (cps "BaseException")), ∅).
Proof. reflexivity. Qed.

Lemma execution_environment_is_allow_list_witness :
  @loaded Demo.demo Demo.p0 Demo.w0
  /\ builtins Demo.w0 = @_SAFE_BUILTINS Demo.demo
  /\ exists ns out c i l w1,
       log (@_execute_code Demo.demo Demo.p0 Demo.CODE_X Demo.w0).2
       = log Demo.w0 ++ [EvExec (_sanitize_code Demo.CODE_X) ns out]
       /\ @env_allowed Demo.demo ns
       /\ @exec_namespace Demo.demo Demo.p0 Demo.w0 = (inr ns, w1)
       /\ ns !! cps "clients" = Some (VDataFrame c)
       /\ ns !! cps "invoices" = Some (VDataFrame i)
       /\ ns !! cps "line_items" = Some (VDataFrame l)
       /\ @fresh_copies Demo.demo Demo.p0 Demo.w0 w1 c i l.
Proof.
  split; [exact demo_loaded|]. split; [reflexivity|].
  exact (@execution_environment_is_allow_list Demo.demo Demo.p0 Demo.CODE_X
           Demo.w0 demo_loaded eq_refl).
Defined.

Lemma leak_loaded : @loaded Leak.leak Demo.p0 Leak.w0.
Proof.
  repeat constructor; eexists; (split; [vm_compute; reflexivity|]);
    vm_compute; eauto.
Qed.

Lemma leak_sanitize_open : _sanitize_code Leak.CODE_OPEN = Leak.CODE_OPEN.
Proof. vm_compute. reflexivity. Qed.

(** C9, as stated, fails: the dictionary of builtins is one object shared
    by all executions. After an execution of
    [__builtins__['open'] = print.__self__.open], the namespace of the next
    execution resolves [open]. *)
Lemma shared_builtins_leak :
  let w1 := (@_execute_code Leak.leak Demo.p0 Leak.CODE_OPEN Leak.w0).2 in
  @loaded Leak.leak Demo.p0 w1
  /\ builtins w1 !! cps "open" = Some (cps "open")
  /\ ~ @every_execution_allowed Leak.leak Demo.p0 Demo.CODE_X w1.
Proof.
  intros w1.
  destruct (@exec_namespace_loaded Leak.leak Demo.p0 Leak.w0 leak_loaded)
    as (safe & c & i & l & wa & Hns & _ & Hp & _ & _ & _).
  assert (builtins w1 = <[cps "open" := cps "open"]> safe) as Hb1.
  { unfold w1. rewrite (@execute_code_builtins Leak.leak _ _ _ _ wa Hns).
    rewrite leak_sanitize_open. cbn [py_exec_builtins Leak.leak].
    unfold Leak.leak_exec_builtins.
    change (eqb Leak.CODE_OPEN Leak.CODE_OPEN) with true. cbn iota.
    unfold builtins_of.
    rewrite (@namespace_of_builtins Leak.leak). reflexivity. }
  assert (@loaded Leak.leak Demo.p0 w1) as Hl1.
  { unfold w1, _execute_code, bind, exec, ret, throw. rewrite Hns.
    destruct (py_exec (_sanitize_code Leak.CODE_OPEN)
                (namespace_of safe c i l) (heap wa)) as [out written] eqn:Hx.
    assert (@loaded Leak.leak Demo.p0
              (World (written ∪ heap wa)
                 (log wa ++ [EvExec (_sanitize_code Leak.CODE_OPEN)
                               (namespace_of safe c i l) out])
                 (py_exec_builtins (_sanitize_code Leak.CODE_OPEN)
                    (namespace_of safe c i l) (heap wa)))) as Hgoal.
    { eapply (@loaded_preserved Leak.leak);
        [|eapply (@loaded_preserved Leak.leak); [exact Hp | exact leak_loaded]].
      intros x Hx'. cbn [heap].
      cbn [py_exec Leak.leak] in Hx. unfold Leak.leak_exec in Hx.
      injection Hx as _ <-. rewrite (left_id_L ∅ (∪)). reflexivity. }
    destruct out as [ns'|e]; [exact Hgoal|].
    destruct (exn_is_Exception e); exact Hgoal. }
  split; [exact Hl1|]. split.
  { rewrite Hb1. apply lookup_insert_eq. }
  intros Hall. destruct (Hall Hl1) as (ns & out & Hlog & _ & Hforb).
  destruct (@exec_namespace_loaded Leak.leak Demo.p0 w1 Hl1)
    as (safe2 & c2 & i2 & l2 & wb & Hns2 & Hlog2 & _ & _ & -> & _).
  rewrite (@execute_code_log Leak.leak _ _ _ _ wb Hns2), Hlog2 in Hlog.
  apply app_inv_head in Hlog. injection Hlog as <- _.
  apply Forall_inv in Hforb. revert Hforb.
  unfold resolve.
  rewrite (@namespace_of_builtins Leak.leak).
  replace (namespace_of (builtins w1) c2 i2 l2 !! cps "open")
    with (@None (pyval (list Z))).
  2:{ symmetry. unfold namespace_of.
      repeat (rewrite lookup_insert_ne by (vm_compute; discriminate)).
      apply lookup_singleton_ne. vm_compute. discriminate. }
  rewrite Hb1, lookup_insert_eq. discriminate.
Qed.

Lemma missing_result_gives_placeholder_witness :
  exists w',
    @_execute_code Demo.demo Demo.p0 Demo.CODE_X Demo.w0
    = (inr (VStr NO_RESULT, None), w').
Proof.
  destruct (@exec_namespace_loaded Demo.demo Demo.p0 Demo.w0 demo_loaded)
    as (safe & c & i & l & w1 & Hns & _).
  apply (@missing_result_gives_placeholder Demo.demo Demo.p0 Demo.CODE_X
           Demo.w0 _ w1 (<[cps "x" := VObj (cps "1")]> (namespace_of safe c i l)) ∅
           Hns).
  - rewrite (proj1 demo_sanitize_programs). apply demo_exec_x.
  - rewrite lookup_insert_ne by (vm_compute; discriminate).
    apply (@namespace_of_result Demo.demo).
Defined.

Lemma raised_exception_is_reported_witness :
  exists w',
    @_execute_code Demo.demo Demo.p0 Demo.CODE_DIV Demo.w0
    = (inr (VNone,
            Some (format_exc (PyExn true (cps "ZeroDivisionError: division by zero")))),
       w')
    /\ format_exc (PyExn true (cps "ZeroDivisionError: division by zero")) <> [].
Proof.
  destruct (@exec_namespace_loaded Demo.demo Demo.p0 Demo.w0 demo_loaded)
    as (safe & c & i & l & w1 & Hns & _).
  apply (@raised_exception_is_reported Demo.demo Demo.p0 Demo.CODE_DIV
           Demo.w0 _ w1 _ ∅ Hns).
  - rewrite (proj1 (proj2 demo_sanitize_programs)). apply demo_exec_div.
  - reflexivity.
Defined.

(** C5, as stated, fails: an exception that is not an instance of
    [Exception] (here a bare [BaseException]) is not caught; it leaves
    [_execute_code], which then returns neither a result nor a trace. *)
Lemma base_exception_escapes :
  (exists w',
     @_execute_code Demo.demo Demo.p0 Demo.CODE_BASE Demo.w0
     = (inl (PyExn false (cps "BaseException")), w'))
  /\ ~ @catches_every_exception Demo.demo Demo.p0 Demo.CODE_BASE Demo.w0.
Proof.
  destruct (@exec_namespace_loaded Demo.demo Demo.p0 Demo.w0 demo_loaded)
    as (safe & c & i & l & w1 & Hns & _).
  assert (@py_exec Demo.demo (_sanitize_code Demo.CODE_BASE)
            (namespace_of safe c i l) (heap w1)
          = (Raised (PyExn false (cps "BaseException")), ∅)) as Hexec.
  { rewrite (proj1 (proj2 (proj2 demo_sanitize_programs))).
    apply demo_exec_base. }
  destruct (@non_exception_propagates Demo.demo Demo.p0 Demo.CODE_BASE
              Demo.w0 _ w1 _ ∅ Hns Hexec eq_refl) as [w' Hesc].
  split; [exists w'; exact Hesc|].
  intros Hcatch.
  destruct (Hcatch _ w1 _ ∅ Hns Hexec) as (trace & w2 & Hret & _).
  rewrite Hesc in Hret. discriminate.
Qed.

(** ** The retry loop *)

Section Retry.
Context `{E : Externals}.

Lemma bind_inr {A B : Type} (m : M A) (k : A -> M B) (w w' : world) (a : A) :
  m w = (inr a, w') -> bind m k w = k a w'.
Proof. intros H. unfold bind. rewrite H. reflexivity. Qed.

Lemma exec_preserves_loaded (self : pipeline) (w : world) (written : store)
  (evs : list event) (b : gmap pystr pystr) :
  loaded self w -> loaded self (World (written ∪ heap w) evs b).
Proof.
  unfold loaded. intros H. eapply Forall_impl; [exact H|].
  intros name (l & Hl & d & Hd). exists l. split; [exact Hl|]. cbn.
  destruct (written !! l) as [d'|] eqn:Hw.
  - exists d'. apply lookup_union_Some_l. exact Hw.
  - exists d. rewrite lookup_union_r by exact Hw. exact Hd.
Qed.

(** One generation, when the service answers with code. *)
Lemma generate_code_answered (self : pipeline) (prompt : pystr)
  (history : option (list turn)) (w : world) (resp code : pystr) :
  complete (count_completions (log w))
    (code_gen_messages (p_schema self) prompt history) = inr resp ->
  unfence resp = inr code ->
  _generate_code self prompt history w
  = (inr code,
     World (heap w)
       (log w ++ [EvComplete (code_gen_messages (p_schema self) prompt history)
                    (inr resp)]) (builtins w)).
Proof.
  intros Hc Hu. unfold _generate_code, bind, chat_completion, ret.
  rewrite Hc, Hu. reflexivity.
Qed.

(** One execution of code that raises an [Exception]. *)
Lemma execute_code_fails (self : pipeline) (code : pystr) (w : world) :
  loaded self w ->
  (forall (ns : namespace) (h : store), exists e,
      (py_exec (_sanitize_code code) ns h).1 = Raised e
      /\ exn_is_Exception e = true) ->
  exists ns e w',
    _execute_code self code w = (inr (VNone, Some (format_exc e)), w')
    /\ log w' = log w ++ [EvExec (_sanitize_code code) ns (Raised e)]
    /\ loaded self w'.
Proof.
  intros Hl Hfail.
  destruct (exec_namespace_loaded self w Hl)
    as (safe & c & i & l & w1 & Hns & Hlog & Hp & _).
  destruct (Hfail (namespace_of safe c i l) (heap w1)) as (e & He & Hexc).
  exists (namespace_of safe c i l), e.
  unfold _execute_code, bind, exec, ret. rewrite Hns.
  destruct (py_exec (_sanitize_code code) (namespace_of safe c i l) (heap w1))
    as [out written]. cbn [fst] in He. subst out. rewrite Hexc.
  eexists. split; [reflexivity|]. cbn [log]. split; [rewrite Hlog; reflexivity|].
  apply exec_preserves_loaded. eapply loaded_preserved; eauto.
Qed.

Lemma count_execs_app (l1 l2 : list event) :
  count_execs (l1 ++ l2) = (count_execs l1 + count_execs l2)%nat.
Proof. unfold count_execs. rewrite List.filter_app, length_app. reflexivity. Qed.


End Retry.

Lemma demo_always_fails : @always_fails Demo.demo.
Proof.
  intros n messages. exists Demo.CODE_DIV, Demo.CODE_DIV.
  split; [reflexivity|]. split; [vm_compute; reflexivity|].
  intros ns h. rewrite (proj1 (proj2 demo_sanitize_programs)).
  eexists. split; [apply (f_equal fst (demo_exec_div ns h))|reflexivity].
Qed.



(** ** Independence of the table copies *)

Section Isolation.
Context `{E : Externals}.

Lemma execute_code_preserves (self : pipeline) (code : pystr) (w : world) :
  confined -> preserves w (_execute_code self code w).2.
Proof.
  intros Hconf.
  pose proof (exec_namespace_spec self w) as (_ & Hp & Hns).
  unfold _execute_code, bind, exec, ret, throw.
  destruct (exec_namespace self w) as [[e|ns] w1]; cbn [fst snd] in *;
    [exact Hp|].
  destruct (Hns ns eq_refl) as (safe & c & i & l & -> & Hc & Hi & Hl).
  pose proof (Hconf (_sanitize_code code) (namespace_of safe c i l) (heap w1)) as Hw.
  destruct (py_exec (_sanitize_code code) (namespace_of safe c i l) (heap w1))
    as [out written]. cbn [snd] in Hw.
  assert (preserves w (World (written ∪ heap w1)
                         (log w1 ++ [EvExec (_sanitize_code code)
                                       (namespace_of safe c i l) out])
                         (py_exec_builtins (_sanitize_code code)
                            (namespace_of safe c i l) (heap w1)))) as Hgoal.
  { intros x Hx. cbn [heap].
    rewrite lookup_union_r.
    - apply Hp, Hx.
    - apply Hw; [eapply preserves_dom; eauto|].
      intros k Hk. apply namespace_of_frames in Hk as [ -> | [ -> | -> ] ]; contradiction. }
  destruct out as [ns'|e]; [exact Hgoal|].
  destruct (exn_is_Exception e); exact Hgoal.
Qed.

Lemma after_executions_preserves (self : pipeline) (codes : list pystr)
  (w : world) :
  confined -> preserves w (after_executions self codes w).
Proof.
  intros Hconf. revert w. induction codes as [|code codes IH]; intros w.
  - apply preserves_refl.
  - cbn. eapply preserves_trans; [apply execute_code_preserves, Hconf|].
    apply IH.
Qed.

Lemma namespace_of_tables (safe : gmap pystr pystr) (c i l : loc) :
  namespace_of safe c i l !! cps "clients" = Some (VDataFrame c)
  /\ namespace_of safe c i l !! cps "invoices" = Some (VDataFrame i)
  /\ namespace_of safe c i l !! cps "line_items" = Some (VDataFrame l).
Proof.
  unfold namespace_of. split; [|split].
  - repeat (rewrite lookup_insert_ne by (vm_compute; discriminate)).
    apply lookup_insert_eq.
  - repeat (rewrite lookup_insert_ne by (vm_compute; discriminate)).
    apply lookup_insert_eq.
  - apply lookup_insert_eq.
Qed.

(** C3: whatever earlier executions did to their copies, the canonical
    tables are as they were, and the next execution is bound to three new
    objects, none of them a canonical table, that hold the canonical
    contents. *)
Theorem table_copies_are_independent (self : pipeline) (codes : list pystr)
  (w : world) :
  confined -> loaded self w ->
  let w1 := after_executions self codes w in
  Forall (fun name => exists t, p_dfs self !! name = Some t
                                /\ is_Some (heap w !! t)
                                /\ heap w1 !! t = heap w !! t) TABLES
  /\ exists ns w2,
       exec_namespace self w1 = (inr ns, w2)
       /\ Forall (fun name => exists t c,
                      p_dfs self !! name = Some t
                      /\ ns !! name = Some (VDataFrame c)
                      /\ (c ∉ dom (heap w1))
                      /\ heap w2 !! c = heap w !! t) TABLES.
Proof.
  intros Hconf Hl w1.
  pose proof (after_executions_preserves self codes w Hconf) as Hp. fold w1 in Hp.
  assert (forall name t, p_dfs self !! name = Some t -> name ∈ TABLES ->
            is_Some (heap w !! t) /\ heap w1 !! t = heap w !! t) as Hcanon.
  { intros name t Ht Hin.
    destruct (loaded_lookup self w name Hl Hin) as (t' & d & Ht' & Hd).
    assert (t' = t) as -> by congruence.
    split; [eauto|]. apply Hp. apply elem_of_dom. eauto. }
  split.
  - unfold loaded in Hl. rewrite Forall_forall in Hl. apply Forall_forall.
    intros name Hin. destruct (Hl name Hin) as (t & Ht & _).
    exists t. split; [exact Ht|]. apply (Hcanon name t Ht Hin).
  - assert (loaded self w1) as Hl1 by (eapply loaded_preserved; eauto).
    destruct (exec_namespace_loaded self w1 Hl1)
      as (safe & c & i & l & w2 & Hns & _ & _ & [(Hc & Hi & Hll) Hfc Hfi Hfl] & _).
    exists (namespace_of safe c i l), w2. split; [exact Hns|].
    destruct (namespace_of_tables safe c i l) as (Hnc & Hni & Hnl).
    destruct Hfc as (tc & Htc & Hvc).
    destruct Hfi as (ti & Hti & Hvi).
    destruct Hfl as (tl & Htl & Hvl).
    repeat constructor.
    + exists tc, c. repeat split; auto. rewrite Hvc.
      apply (Hcanon (cps "clients") tc Htc). unfold TABLES. set_solver.
    + exists ti, i. repeat split; auto. rewrite Hvi.
      apply (Hcanon (cps "invoices") ti Hti). unfold TABLES. set_solver.
    + exists tl, l. repeat split; auto. rewrite Hvl.
      apply (Hcanon (cps "line_items") tl Htl). unfold TABLES. set_solver.
Qed.

End Isolation.

Lemma demo_exec_confined (code : pystr) (ns : gmap pystr (pyval (list Z)))
  (h : gmap loc (list (list Z))) (l : loc) :
  l ∈ dom h -> (forall k, ns !! k <> Some (VDataFrame l)) ->
  (Demo.demo_exec code ns h).2 !! l = None.
Proof.
  intros Hl Hns. unfold Demo.demo_exec.
  destruct (eqb code []); [apply lookup_empty|].
  destruct (eqb code Demo.CODE_X); [apply lookup_empty|].
  destruct (eqb code Demo.CODE_DROP).
  - destruct (ns !! cps "clients") as [v|] eqn:Hc;
      [destruct v as [|s|x|s|m|d|s]|]; cbn [snd]; try apply lookup_empty.
    destruct (bool_decide (x ∈ dom h)); [|apply lookup_empty].
    apply lookup_singleton_ne. intros Heq. subst x. exact (Hns _ Hc).
  - destruct (eqb code Demo.CODE_BASE); apply lookup_empty.
Qed.

Lemma demo_confined : @confined Demo.demo.
Proof. intros code ns h l. apply demo_exec_confined. Qed.

Lemma table_copies_are_independent_witness :
  Forall (fun name => exists t, p_dfs Demo.p0 !! name = Some t
                                /\ is_Some (heap Demo.w0 !! t)
                                /\ heap (@after_executions Demo.demo Demo.p0
                                           [Demo.CODE_DROP; Demo.CODE_DIV] Demo.w0) !! t
                                   = heap Demo.w0 !! t) TABLES
  /\ exists ns w2,
       @exec_namespace Demo.demo Demo.p0
         (@after_executions Demo.demo Demo.p0
            [Demo.CODE_DROP; Demo.CODE_DIV] Demo.w0) = (inr ns, w2)
       /\ Forall (fun name => exists t c,
                      p_dfs Demo.p0 !! name = Some t
                      /\ ns !! name = Some (VDataFrame c)
                      /\ (c ∉ dom (heap (@after_executions Demo.demo Demo.p0
                                           [Demo.CODE_DROP; Demo.CODE_DIV]
                                           Demo.w0)))
                      /\ heap w2 !! c = heap Demo.w0 !! t) TABLES.
Proof.
  apply (@table_copies_are_independent Demo.demo Demo.p0
           [Demo.CODE_DROP; Demo.CODE_DIV] Demo.w0).
  - exact demo_confined.
  - exact demo_loaded.
Defined.

(** * Further properties *)

(** ** The sanitizer only deletes *)

Lemma sub_del_sublist (r : Re.re) (s : pystr) (skip : nat) (prev : option N) :
  sublist (Re.sub_del r skip prev s) s.
Proof.
  revert skip prev. induction s as [|c t IH]; intros skip prev; cbn [Re.sub_del].
  - constructor.
  - destruct skip as [|n].
    + destruct (Re.match_here r prev (c :: t)) as [rest|].
      * destruct (length (c :: t) - length rest)%nat.
        -- apply sublist_skip, IH.
        -- apply sublist_cons, IH.
      * apply sublist_skip, IH.
    + apply sublist_cons, IH.
Qed.

(** X1: the sanitized code is obtained from the code by deleting
    characters: it is a subsequence of the input, never longer than it. *)
Theorem sanitize_only_deletes (code : pystr) :
  sublist (_sanitize_code code) code
  /\ (length (_sanitize_code code) <= length code)%nat.
Proof.
  assert (sublist (_sanitize_code code) code) as H
    by apply sub_del_sublist.
  split; [exact H | apply sublist_length, H].
Qed.

(** ** Code without the import keyword is untouched *)

Lemma startswith_prefix (p s : pystr) :
  startswith p s = true <-> exists r, s = p ++ r.
Proof.
  revert s. induction p as [|a p IH]; intros s; cbn.
  - split; [eauto | reflexivity].
  - destruct s as [|b s].
    + split; [discriminate | intros [r Hr]; discriminate].
    + rewrite andb_true_iff, N.eqb_eq, IH. split.
      * intros [-> [r ->]]. eauto.
      * intros [r Hr]. injection Hr as -> ->. eauto.
Qed.

Lemma str_in_infix (sub s : pystr) :
  (exists a b, s = a ++ sub ++ b) -> str_in sub s = true.
Proof.
  intros (a & b & ->). induction a as [|c a IH].
  - cbn [app]. destruct (sub ++ b) eqn:Hsb; cbn [str_in];
      apply orb_true_iff; left; apply startswith_prefix; exists b; auto.
  - cbn [app str_in]. rewrite IH. apply orb_true_r.
Qed.

Lemma lit_Some (l : pystr) (prev prev' : option N) (s s' : pystr) :
  Re.lit l prev s = Some (prev', s') -> s = l ++ s'.
Proof.
  revert prev s. induction l as [|c l IH]; intros prev s H; cbn in H.
  - injection H as _ ->. reflexivity.
  - destruct s as [|d s]; [discriminate|].
    destruct (N.eqb_spec c d) as [->|]; [|discriminate].
    cbn. f_equal. eapply IH, H.
Qed.

Lemma star_Some {A : Type} (p : N -> bool) (k : option N -> pystr -> option A)
  (prev : option N) (s : pystr) (r : A) :
  Re.star p k prev s = Some r ->
  exists pre prev' s', s = pre ++ s' /\ k prev' s' = Some r.
Proof.
  revert prev. induction s as [|c t IH]; intros prev H; cbn [Re.star] in H.
  - exists [], prev, []. auto.
  - destruct (p c).
    + destruct (Re.star p k (Some c) t) as [x|] eqn:Hs.
      * injection H as ->. destruct (IH _ Hs) as (pre & prev' & s' & -> & Hk).
        exists (c :: pre), prev', s'. auto.
      * exists [], prev, (c :: t). auto.
    + exists [], prev, (c :: t). auto.
Qed.

Lemma import_match_has_keyword (prev : option N) (s rest : pystr) :
  Re.match_here _IMPORT_RE prev s = Some rest ->
  str_in (cps "import ") s = true.
Proof.
  unfold Re.match_here, _IMPORT_RE. cbn [Re.mtch]. intros H.
  destruct (Re.at_bol prev); [|discriminate].
  apply star_Some in H as (pre & prev' & s' & -> & H).
  apply str_in_infix.
  destruct (Re.lit (cps "import ") prev' s') as [[p1 s1]|] eqn:Himp.
  - apply lit_Some in Himp as ->. exists pre, s1. reflexivity.
  - destruct (Re.lit (cps "from ") prev' s') as [[p2 s2]|] eqn:Hfrom;
      [|discriminate].
    apply lit_Some in Hfrom as ->.
    destruct s2 as [|c t]; [discriminate|].
    destruct (negb (isspace c)); [|discriminate].
    apply star_Some in H as (pre2 & prev2 & s3 & -> & H).
    destruct (Re.lit (cps " import ") prev2 s3) as [[p3 s4]|] eqn:Himp2;
      [|discriminate].
    apply lit_Some in Himp2 as ->.
    exists (pre ++ cps "from " ++ c :: pre2 ++ [SPACE]), s4.
    rewrite <- !app_assoc. cbn. rewrite <- !app_assoc. reflexivity.
Qed.

(** X2: code in which the text "import " occurs nowhere is returned
    unchanged. *)
Theorem sanitize_without_keyword (code : pystr) :
  str_in (cps "import ") code = false -> _sanitize_code code = code.
Proof.
  intros Hno. apply sanitize_no_import_lines. intros pre c post ->.
  destruct (Re.match_here _IMPORT_RE (last pre) (c :: post)) as [rest|] eqn:Hm;
    [|reflexivity].
  apply import_match_has_keyword in Hm.
  assert (str_in (cps "import ") (pre ++ c :: post) = true) as Hin.
  { clear Hno. induction pre as [|x pre IH]; [exact Hm|].
    cbn [app str_in]. rewrite IH. apply orb_true_r. }
  congruence.
Qed.

Lemma sanitize_without_keyword_witness :
  _sanitize_code (text ["df = clients[clients.country == 'UK']";
                        "result = df[['name', 'industry']]"]%string)
  = text ["df = clients[clients.country == 'UK']";
          "result = df[['name', 'industry']]"]%string.
Proof.
  apply sanitize_without_keyword. vm_compute. reflexivity.
Defined.

(** ** Removing the fence *)

Lemma partition_unfold (sep s : pystr) :
  partition sep s
  = if startswith sep s then Some ([], drop (length sep) s)
    else match s with
         | [] => None
         | c :: t =>
             match partition sep t with
             | Some (a, b) => Some (c :: a, b)
             | None => None
             end
         end.
Proof. destruct s; reflexivity. Qed.

Lemma partition_at_prefix (sep r : pystr) :
  partition sep (sep ++ r) = Some ([], r).
Proof.
  rewrite partition_unfold.
  rewrite (proj2 (startswith_prefix sep (sep ++ r))) by eauto.
  rewrite drop_app_length. reflexivity.
Qed.

Lemma partition_newline (pre rest : pystr) :
  NL ∉ pre -> partition [NL] (pre ++ NL :: rest) = Some (pre, rest).
Proof.
  induction pre as [|c pre IH]; intros Hno.
  - apply (partition_at_prefix [NL] rest).
  - rewrite partition_unfold. cbn [app startswith].
    destruct (N.eqb_spec NL c) as [<-|Hne]; [set_solver|].
    cbn [andb]. rewrite IH by set_solver. reflexivity.
Qed.

Lemma partition_no_newline (s : pystr) :
  NL ∉ s -> partition [NL] s = None.
Proof.
  induction s as [|c s IH]; intros Hno; [reflexivity|].
  rewrite partition_unfold. cbn [startswith].
  destruct (N.eqb_spec NL c) as [<-|Hne]; [set_solver|].
  cbn [andb]. rewrite IH by set_solver. reflexivity.
Qed.

Lemma strip_between_backticks (s : pystr) :
  strip (BACKTICK :: s ++ [BACKTICK]) = BACKTICK :: s ++ [BACKTICK].
Proof.
  unfold strip, rstrip. cbn [lstrip].
  change (isspace BACKTICK) with false. cbn iota.
  change (BACKTICK :: s ++ [BACKTICK]) with ([BACKTICK] ++ s ++ [BACKTICK]).
  rewrite !rev_app_distr. cbn [rev app lstrip].
  change (isspace BACKTICK) with false. cbn iota.
  change (BACKTICK :: rev s ++ [BACKTICK]) with ([BACKTICK] ++ rev s ++ [BACKTICK]).
  rewrite !rev_app_distr, rev_involutive. reflexivity.
Qed.

(** X3: a block opened by a fence line (the fence and a language tag, with
    no newline in the tag) and closed by a fence unwraps to exactly what is
    between them. *)
Theorem unfence_fenced_block (lang body : pystr) :
  NL ∉ lang ->
  unfence (FENCE ++ lang ++ NL :: body ++ FENCE) = inr body.
Proof.
  intros Hlang. unfold unfence.
  assert (strip (FENCE ++ lang ++ NL :: body ++ FENCE)
          = FENCE ++ lang ++ NL :: body ++ FENCE) as ->.
  { assert (FENCE ++ lang ++ NL :: body ++ FENCE
            = BACKTICK :: ([BACKTICK; BACKTICK] ++ lang ++ NL :: body
                           ++ [BACKTICK; BACKTICK]) ++ [BACKTICK]) as Heq.
    { unfold FENCE. cbn [app]. do 3 f_equal.
      rewrite <- app_assoc. cbn [app]. f_equal.
      rewrite <- app_assoc. reflexivity. }
    rewrite Heq. apply strip_between_backticks. }
  rewrite (proj2 (startswith_prefix FENCE _)) by eauto.
  unfold split1.
  rewrite (app_assoc FENCE lang), partition_newline.
  2:{ unfold FENCE. rewrite !elem_of_app, !elem_of_cons, elem_of_nil.
      intros [[H|[H|[H|[]]]]|H]; try discriminate. contradiction. }
  cbn [lookup list_lookup]. unfold rsplit1.
  rewrite rev_app_distr, partition_at_prefix.
  cbn [lookup list_lookup]. rewrite rev_involutive. reflexivity.
Qed.

Lemma unfence_fenced_block_witness :
  unfence (FENCE ++ cps "python" ++ NL :: text ["result = len(clients)"; ""]%string
           ++ FENCE)
  = inr (text ["result = len(clients)"; ""]%string).
Proof.
  apply unfence_fenced_block. vm_compute.
  intros H. apply list_elem_of_In in H. cbn in H.
  repeat (destruct H as [H|H]; [discriminate|]). exact H.
Defined.

(** ** What one call of [ask] does to the world *)

Section AskTraces.
Context `{E : Externals}.

Lemma bind_cases {A B : Type} (m : M A) (k : A -> M B) (w : world) :
  (exists e w1, m w = (inl e, w1) /\ bind m k w = (inl e, w1))
  \/ (exists a w1, m w = (inr a, w1) /\ bind m k w = k a w1).
Proof.
  unfold bind. destruct (m w) as [[e|a] w1]; [left|right]; eauto.
Qed.

Lemma generate_code_world (self : pipeline) (prompt : pystr)
  (history : option (list turn)) (w : world) :
  heap (_generate_code self prompt history w).2 = heap w
  /\ exists resp,
       log (_generate_code self prompt history w).2
       = log w ++ [EvComplete (code_gen_messages (p_schema self) prompt history)
                     resp].
Proof.
  unfold _generate_code, bind, chat_completion, ret, throw.
  destruct (complete _ _) as [e|resp]; cbn [fst snd heap log]; [eauto|].
  destruct (unfence resp); cbn [fst snd heap log]; eauto.
Qed.

Lemma generate_answer_world (self : pipeline) (question data_str : pystr)
  (history : option (list turn)) (w : world) :
  heap (_generate_answer self question data_str history w).2 = heap w
  /\ exists resp,
       log (_generate_answer self question data_str history w).2
       = log w ++ [EvComplete (answer_messages question data_str history) resp].
Proof.
  unfold _generate_answer, bind, chat_completion, ret.
  destruct (complete _ _) as [e|resp]; cbn [fst snd heap log]; eauto.
Qed.

Lemma render_world (result : value) (w : world) : (render result w).2 = w.
Proof.
  unfold render, bind, deref, ret.
  destruct result; try reflexivity.
  destruct (heap w !! l); reflexivity.
Qed.

(** One execution: at most one [exec] call, on sanitized code, in the
    namespace built by [_execute_code]; a reported error is the trace of
    what it raised. *)
Lemma execute_code_world (self : pipeline) (code : pystr) (w : world) :
  exists evs,
    log (_execute_code self code w).2 = log w ++ evs
    /\ (evs = []
        \/ exists ns out, evs = [EvExec (_sanitize_code code) ns out]
                          /\ exists safe c i l, ns = namespace_of safe c i l)
    /\ forall v trace, (_execute_code self code w).1 = inr (v, Some trace) ->
         exists e ns,
           trace = format_exc e /\ exn_is_Exception e = true
           /\ evs = [EvExec (_sanitize_code code) ns (Raised e)].
Proof.
  pose proof (exec_namespace_spec self w) as (Hlog & _ & Hns).
  unfold _execute_code, bind, exec, ret, throw.
  destruct (exec_namespace self w) as [[e|ns] w1]; cbn [fst snd] in *.
  { exists []. rewrite app_nil_r. split; [exact Hlog|]. split; [auto|].
    intros v trace [=]. }
  destruct (Hns ns eq_refl) as (safe & c & i & l & -> & _).
  destruct (py_exec (_sanitize_code code) (namespace_of safe c i l) (heap w1))
    as [out written].
  exists [EvExec (_sanitize_code code) (namespace_of safe c i l) out].
  assert (exists safe' c' i' l',
            namespace_of safe c i l = namespace_of safe' c' i' l') as Hok
    by eauto.
  destruct out as [ns'|e]; cbn [fst snd log].
  - rewrite Hlog. split; [reflexivity|]. split; [eauto|]. intros v trace [=].
  - destruct (exn_is_Exception e) eqn:Hexc; cbn [fst snd log]; rewrite Hlog.
    + split; [reflexivity|]. split; [eauto|].
      intros v trace [= <- <-]. eauto.
    + split; [reflexivity|]. split; [eauto|]. intros v trace [=].
Qed.

Lemma count_completions_app (l1 l2 : list event) :
  count_completions (l1 ++ l2)
  = (count_completions l1 + count_completions l2)%nat.
Proof.
  unfold count_completions. rewrite List.filter_app, length_app. reflexivity.
Qed.

(** The events of a call are bounded by the budget. *)
Record trace_within (n : nat) (evs : list event) : Prop := {
  tw_execs : (count_execs evs <= n)%nat;
  tw_completions : (count_completions evs <= n + 1)%nat;
  tw_ok : Forall exec_event_ok evs
}.

Lemma ask_loop_trace (self : pipeline) (n : nat) (question : pystr)
  (history : option (list turn)) (last_error : option pystr) (code : pystr)
  (w : world) :
  exists evs,
    log (ask_loop self n question history last_error code w).2 = log w ++ evs
    /\ trace_within n evs.
Proof.
  revert last_error code w. induction n as [|n IH]; intros last_error code w.
  - exists []. cbn. rewrite app_nil_r. split; [reflexivity|].
    constructor; cbn; [lia | lia | constructor].
  - cbn [ask_loop].
    set (prompt := match last_error with
                   | Some err => fix_prompt err question
                   | None => question
                   end).
    destruct (generate_code_world self prompt history w) as (_ & resp & Hg).
    destruct (bind_cases (_generate_code self prompt history)
                (fun code0 =>
                   re <- _execute_code self code0 ;;
                   (let '(result, error) := re in
                    match error with
                    | Some err => ask_loop self n question history (Some err) code0
                    | None =>
                        data_str <- render result ;;
                        answer <- _generate_answer self question data_str history ;;
                        ret (Response answer code0 data_str None)
                    end)) w)
      as [(e & w1 & Hm & ->)|(code1 & w1 & Hm & ->)];
      rewrite Hm in Hg; cbn [snd] in Hg.
    { exists [EvComplete (code_gen_messages (p_schema self) prompt history) resp].
      split; [exact Hg|]. constructor; cbn; [lia | lia | repeat constructor]. }
    destruct (execute_code_world self code1 w1) as (evs2 & Hx & Hshape & _).
    assert ((count_execs evs2 <= 1)%nat /\ count_completions evs2 = 0%nat
            /\ Forall exec_event_ok evs2) as (Hx1 & Hx2 & Hx3).
    { destruct Hshape as [->|(ns & out & -> & Hok)].
      - cbn. split; [lia|]. split; [reflexivity | constructor].
      - cbn. split; [lia|]. split; [reflexivity|].
        constructor; [|constructor].
        split; [eexists; reflexivity | exact Hok]. }
    match goal with
    | |- context [bind (_execute_code self code1) ?k w1] =>
        destruct (bind_cases (_execute_code self code1) k w1)
          as [(e & w2 & Hm2 & ->)|([result error] & w2 & Hm2 & ->)]
    end; rewrite Hm2 in Hx; cbn [snd] in Hx.
    { exists (EvComplete (code_gen_messages (p_schema self) prompt history) resp
              :: evs2).
      split; [cbn [snd]; rewrite Hx, Hg, <- app_assoc; reflexivity|].
      constructor.
      - change (count_execs (?x :: evs2)) with (count_execs evs2). lia.
      - change (count_completions (?x :: evs2))
          with (S (count_completions evs2)). lia.
      - constructor; [exact I | exact Hx3]. }
    destruct error as [err|]; cbn beta iota.
    + destruct (IH (Some err) code1 w2) as (evs3 & H3 & [Ha Hb Hc]).
      exists (EvComplete (code_gen_messages (p_schema self) prompt history) resp
              :: evs2 ++ evs3).
      split.
      { rewrite H3, Hx, Hg, <- !app_assoc. reflexivity. }
      constructor.
      * change (count_execs (?x :: evs2 ++ evs3))
          with (count_execs (evs2 ++ evs3)).
        rewrite count_execs_app. lia.
      * change (count_completions (?x :: evs2 ++ evs3))
          with (S (count_completions (evs2 ++ evs3))).
        rewrite count_completions_app. lia.
      * constructor; [exact I|]. apply Forall_app. auto.
    + unfold bind at 1. rewrite (surjective_pairing (render result w2)).
      rewrite render_world.
      destruct (render result w2).1 as [e|data_str].
      { exists (EvComplete (code_gen_messages (p_schema self) prompt history) resp
                :: evs2).
        split; [cbn [snd]; rewrite Hx, Hg, <- app_assoc; reflexivity|].
        constructor.
        - change (count_execs (?x :: evs2)) with (count_execs evs2). lia.
        - change (count_completions (?x :: evs2))
            with (S (count_completions evs2)). lia.
        - constructor; [exact I | exact Hx3]. }
      destruct (generate_answer_world self question data_str history w2)
        as (_ & resp2 & Ha).
      assert (log (bind (_generate_answer self question data_str history)
                     (fun answer => ret (Response answer code1 data_str None))
                     w2).2
              = log (_generate_answer self question data_str history w2).2)
        as Heq.
      { unfold bind, ret.
        destruct (_generate_answer self question data_str history w2)
          as [[e|a] w3]; reflexivity. }
      exists (EvComplete (code_gen_messages (p_schema self) prompt history) resp
              :: evs2
              ++ [EvComplete (answer_messages question data_str history) resp2]).
      split.
      { rewrite Heq, Ha, Hx, Hg, <- !app_assoc. reflexivity. }
      constructor.
      * change (count_execs (?x :: ?l)) with (count_execs l).
        rewrite count_execs_app. cbn. lia.
      * change (count_completions (?x :: ?l)) with (S (count_completions l)).
        rewrite count_completions_app. cbn. lia.
      * constructor; [exact I|]. apply Forall_app. split; [exact Hx3|].
        repeat constructor.
Qed.

(** X4: whatever the completion service and the interpreter do, one call
    of [ask] makes at most [max_retries] executions and at most
    [max_retries + 1] completion requests; every fragment it executes is an
    output of the sanitizer, and the namespace it runs in is the dictionary
    literal of [_execute_code]: the three libraries, three table objects
    and, under [__builtins__], the shared dictionary with some content. *)
Theorem ask_effects_within_budget (self : pipeline) (question : pystr)
  (history : option (list turn)) (max_retries : Z) (w : world) :
  exists evs,
    log (ask self question history max_retries w).2 = log w ++ evs
    /\ (count_execs evs <= Z.to_nat max_retries)%nat
    /\ (count_completions evs <= Z.to_nat max_retries + 1)%nat
    /\ Forall exec_event_ok evs.
Proof.
  unfold ask.
  destruct (ask_loop_trace self (Z.to_nat max_retries) question
              (Some (default [] history)) None [] w) as (evs & Hlog & [H1 H2 H3]).
  exists evs. auto.
Qed.

End AskTraces.

Section AskOutcomes.
Context `{E : Externals}.

(** The error carried into an iteration of the loop is the trace of the
    last event of the log. *)
Definition error_from_log (code : pystr) (err : option pystr) (w : world)
  : Prop :=
  match err with
  | None => True
  | Some trace =>
      exists e ns, trace = format_exc e /\ exn_is_Exception e = true
                   /\ last (log w) = Some (EvExec (_sanitize_code code) ns (Raised e))
  end.

Definition well_shaped (r : response) (w' : world) : Prop :=
  r_error r = None
  \/ (r_answer r = APOLOGY /\ r_data r = []
      /\ error_from_log (r_code r) (r_error r) w').

Lemma ask_loop_shape (self : pipeline) (n : nat) (question : pystr)
  (history : option (list turn)) (last_error : option pystr) (code : pystr)
  (w : world) (r : response) (w' : world) :
  error_from_log code last_error w ->
  ask_loop self n question history last_error code w = (inr r, w') ->
  well_shaped r w'.
Proof.
  revert last_error code w. induction n as [|n IH]; intros last_error code w Hinv.
  - cbn. intros [= <- <-]. destruct last_error as [trace|]; [|left; reflexivity].
    right. cbn. auto.
  - cbn [ask_loop].
    match goal with
    | |- bind ?m ?k w = _ -> _ =>
        destruct (bind_cases m k w) as [(e & w1 & _ & ->)|(code1 & w1 & _ & ->)]
    end; [discriminate|].
    destruct (execute_code_world self code1 w1) as (evs & Hlog & _ & Herr).
    match goal with
    | |- bind ?m ?k w1 = _ -> _ =>
        destruct (bind_cases m k w1)
          as [(e & w2 & _ & ->)|([result error] & w2 & Hx & ->)]
    end; [discriminate|].
    rewrite Hx in Herr, Hlog. cbn [fst snd] in Herr, Hlog.
    destruct error as [err|]; cbn beta iota.
    + apply IH.
      destruct (Herr result err eq_refl) as (e & ns & -> & Hexc & ->).
      exists e, ns. split; [reflexivity|]. split; [exact Hexc|].
      rewrite Hlog. apply last_snoc.
    + unfold bind, ret.
      destruct (render result w2) as [[e|data_str] w3]; [discriminate|].
      destruct (_generate_answer self question data_str history w3)
        as [[e|answer] w4]; [discriminate|].
      intros [= <- <-]. left. reflexivity.
Qed.

(** X5: a response of [ask] either has no error, or it is the apology with
    empty data, and its error is the formatted trace of the [Exception]
    raised by the last [exec] call of the log, which ran the sanitized
    form of the returned code. *)
Theorem ask_response_shape (self : pipeline) (question : pystr)
  (history : option (list turn)) (max_retries : Z) (w : world) :
  match ask self question history max_retries w with
  | (inr r, w') => well_shaped r w'
  | (inl _, _) => True
  end.
Proof.
  destruct (ask self question history max_retries w) as [[e|r] w'] eqn:Hask;
    [exact I|].
  unfold ask in Hask. eapply ask_loop_shape; [|exact Hask]. exact I.
Qed.

Lemma generate_code_preserves (self : pipeline) (prompt : pystr)
  (history : option (list turn)) (w : world) :
  preserves w (_generate_code self prompt history w).2.
Proof.
  destruct (generate_code_world self prompt history w) as (Hh & _).
  intros x _. rewrite Hh. reflexivity.
Qed.

Lemma ask_loop_preserves (self : pipeline) (n : nat) (question : pystr)
  (history : option (list turn)) (last_error : option pystr) (code : pystr)
  (w : world) :
  confined ->
  preserves w (ask_loop self n question history last_error code w).2.
Proof.
  intros Hconf. revert last_error code w.
  induction n as [|n IH]; intros last_error code w.
  - apply preserves_refl.
  - cbn [ask_loop].
    match goal with
    | |- preserves w (bind ?m ?k w).2 =>
        pose proof (generate_code_preserves self
                      (match last_error with
                       | Some err => fix_prompt err question
                       | None => question
                       end) history w) as Hg;
        destruct (bind_cases m k w) as [(e & w1 & Hm & ->)|(code1 & w1 & Hm & ->)]
    end; rewrite Hm in Hg; cbn [snd] in Hg; [exact Hg|].
    pose proof (execute_code_preserves self code1 w1 Hconf) as Hx.
    match goal with
    | |- preserves w (bind ?m ?k w1).2 =>
        destruct (bind_cases m k w1)
          as [(e & w2 & Hm2 & ->)|([result error] & w2 & Hm2 & ->)]
    end; rewrite Hm2 in Hx; cbn [snd] in Hx;
      [eapply preserves_trans; eauto|].
    assert (preserves w w2) as Hw2 by (eapply preserves_trans; eauto).
    destruct error as [err|]; cbn beta iota.
    + eapply preserves_trans; [exact Hw2 | apply IH].
    + unfold bind at 1. rewrite (surjective_pairing (render result w2)).
      rewrite render_world.
      destruct (render result w2).1 as [e|data_str]; [exact Hw2|].
      destruct (generate_answer_world self question data_str history w2)
        as (Hh & _).
      unfold bind, ret.
      destruct (_generate_answer self question data_str history w2)
        as [[e|a] w3]; cbn [snd] in *;
        intros x Hx'; rewrite Hh; apply Hw2, Hx'.
Qed.

(** X6: when the interpreter changes existing objects only through the
    namespace it is given, a whole call of [ask], with all its retries,
    leaves every object that was in the store before the call unchanged,
    the canonical tables among them. *)
Theorem ask_preserves_store (self : pipeline) (question : pystr)
  (history : option (list turn)) (max_retries : Z) (w : world) :
  confined ->
  preserves w (ask self question history max_retries w).2.
Proof. intros Hconf. unfold ask. apply ask_loop_preserves, Hconf. Qed.

(** X7: when the answer of the service opens a fence and has no newline,
    removing the fence raises [IndexError]; [ask] lets it through after
    this one request, without executing anything. *)
Theorem ask_fence_without_newline (self : pipeline) (question : pystr)
  (history : option (list turn)) (max_retries : Z) (w : world) (resp : pystr) :
  (0 < max_retries)%Z ->
  complete (count_completions (log w))
    (code_gen_messages (p_schema self) question (Some (default [] history)))
  = inr resp ->
  startswith FENCE (strip resp) = true ->
  NL ∉ strip resp ->
  ask self question history max_retries w
  = (inl IndexError,
     World (heap w)
       (log w ++ [EvComplete
                    (code_gen_messages (p_schema self) question
                       (Some (default [] history))) (inr resp)])
             (builtins w)).
Proof.
  intros Hn Hc Hf Hnl. unfold ask.
  destruct (Z.to_nat max_retries) as [|n] eqn:Hz; [lia|].
  cbn [ask_loop]. unfold bind at 1.
  unfold _generate_code, bind, chat_completion, ret, throw. rewrite Hc.
  unfold unfence. rewrite Hf. unfold split1.
  rewrite partition_no_newline by exact Hnl. reflexivity.
Qed.

(** X8: a failure of the completion service during code synthesis leaves
    [ask] as it is, after this one request and without any execution. *)
Theorem ask_service_failure (self : pipeline) (question : pystr)
  (history : option (list turn)) (max_retries : Z) (w : world) (e : pyexn) :
  (0 < max_retries)%Z ->
  complete (count_completions (log w))
    (code_gen_messages (p_schema self) question (Some (default [] history)))
  = inl e ->
  ask self question history max_retries w
  = (inl e,
     World (heap w)
       (log w ++ [EvComplete
                    (code_gen_messages (p_schema self) question
                       (Some (default [] history))) (inl e)])
             (builtins w)).
Proof.
  intros Hn Hc. unfold ask.
  destruct (Z.to_nat max_retries) as [|n] eqn:Hz; [lia|].
  cbn [ask_loop]. unfold bind at 1.
  unfold _generate_code, bind, chat_completion, ret, throw. rewrite Hc.
  reflexivity.
Qed.

End AskOutcomes.

Lemma ask_preserves_store_witness :
  @preserves Demo.demo Demo.w0
    (@ask Demo.demo Demo.p0 (cps "How many clients?") None 2 Demo.w0).2.
Proof. apply (@ask_preserves_store Demo.demo). exact demo_confined. Defined.

Lemma ask_fence_without_newline_witness :
  @ask (Services.with_complete Services.only_fence) Demo.p0
    (cps "How many clients?") None 2 (Services.w0 Services.only_fence)
  = (inl IndexError,
     @World (Services.with_complete Services.only_fence)
       (heap (Services.w0 Services.only_fence))
       (log (Services.w0 Services.only_fence)
        ++ [EvComplete
              (code_gen_messages (p_schema Demo.p0) (cps "How many clients?")
                 (Some (default [] None)))
              (inr (FENCE ++ cps "python"))])
         (builtins (Services.w0 Services.only_fence))).
Proof.
  apply (@ask_fence_without_newline (Services.with_complete Services.only_fence)).
  - lia.
  - reflexivity.
  - vm_compute. reflexivity.
  - intros H. apply list_elem_of_In in H. vm_compute in H.
    repeat (destruct H as [H|H]; [discriminate|]). exact H.
Defined.

Lemma ask_service_failure_witness :
  @ask (Services.with_complete Services.down) Demo.p0
    (cps "How many clients?") None 2 (Services.w0 Services.down)
  = (inl (PyExn true (cps "groq.APIConnectionError: Connection error.")),
     @World (Services.with_complete Services.down)
       (heap (Services.w0 Services.down))
       (log (Services.w0 Services.down)
        ++ [EvComplete
              (code_gen_messages (p_schema Demo.p0) (cps "How many clients?")
                 (Some (default [] None)))
              (inl (PyExn true (cps "groq.APIConnectionError: Connection error.")))])
         (builtins (Services.w0 Services.down))).
Proof.
  apply (@ask_service_failure (Services.with_complete Services.down)).
  - lia.
  - reflexivity.
Defined.

Section AskSuccess.
Context `{E : Externals}.

Lemma execute_code_no_result (self : pipeline) (code : pystr) (w : world) :
  loaded self w -> runs_without_result code ->
  exists ns out w',
    _execute_code self code w = (inr (VStr NO_RESULT, None), w')
    /\ log w' = log w ++ [EvExec (_sanitize_code code) ns out]
    /\ loaded self w'.
Proof.
  intros Hl Hrun.
  destruct (exec_namespace_loaded self w Hl)
    as (safe & c & i & l & w1 & Hns & Hlog & Hp & _).
  destruct (Hrun safe c i l (heap w1)) as (ns' & written & Hx & Hres).
  exists (namespace_of safe c i l), (Finished ns').
  unfold _execute_code, bind, exec, ret. rewrite Hns, Hx, Hres.
  eexists. split; [reflexivity|]. cbn [log]. split; [rewrite Hlog; reflexivity|].
  apply exec_preserves_loaded. eapply loaded_preserved; eauto.
Qed.

Lemma generate_answer_answered (self : pipeline) (question data_str : pystr)
  (history : option (list turn)) (w : world) (resp : pystr) :
  complete (count_completions (log w))
    (answer_messages question data_str history) = inr resp ->
  _generate_answer self question data_str history w
  = (inr (strip resp),
     World (heap w)
       (log w ++ [EvComplete (answer_messages question data_str history)
                    (inr resp)]) (builtins w)).
Proof.
  intros Hc. unfold _generate_answer, bind, chat_completion, ret.
  rewrite Hc. reflexivity.
Qed.

(** X9: code that runs to its end without assigning [result] is not
    retried: [ask] hands the placeholder text to answer synthesis as the
    data, and returns that text as data with no error, after one
    execution. *)
Theorem ask_answers_from_placeholder (self : pipeline) (question : pystr)
  (history : option (list turn)) (max_retries : Z) (w : world)
  (resp1 code resp2 : pystr) :
  let h := Some (default [] history) in
  let k := count_completions (log w) in
  loaded self w -> (0 < max_retries)%Z ->
  complete k (code_gen_messages (p_schema self) question h) = inr resp1 ->
  unfence resp1 = inr code ->
  runs_without_result code ->
  complete (S k) (answer_messages question NO_RESULT h) = inr resp2 ->
  exists ns out w',
    ask self question history max_retries w
    = (inr (Response (strip resp2) code NO_RESULT None), w')
    /\ log w'
       = log w ++ [EvComplete (code_gen_messages (p_schema self) question h)
                     (inr resp1);
                   EvExec (_sanitize_code code) ns out;
                   EvComplete (answer_messages question NO_RESULT h) (inr resp2)].
Proof.
  intros h k Hl Hn Hc1 Hu Hrun Hc2.
  pose proof (generate_code_answered self question h w resp1 code Hc1 Hu) as Hg.
  set (wa := World (heap w)
               (log w ++ [EvComplete (code_gen_messages (p_schema self) question h)
                            (inr resp1)]) (builtins w)) in *.
  assert (loaded self wa) as Hla by exact Hl.
  destruct (execute_code_no_result self code wa Hla Hrun)
    as (ns & out & wb & Hx & Hlogb & _).
  assert (count_completions (log wb) = S k) as Hk.
  { rewrite Hlogb. subst wa. cbn [log].
    rewrite !count_completions_app. cbn. fold k. lia. }
  rewrite <- Hk in Hc2.
  pose proof (generate_answer_answered self question NO_RESULT h wb resp2 Hc2)
    as Ha.
  exists ns, out. eexists. split.
  - unfold ask. fold h.
    destruct (Z.to_nat max_retries) as [|n] eqn:Hz; [lia|].
    cbn [ask_loop]. rewrite (bind_inr _ _ _ _ _ Hg).
    rewrite (bind_inr _ _ _ _ _ Hx). cbn beta iota.
    unfold render, py_str. unfold bind at 1. unfold ret at 1.
    rewrite (bind_inr _ _ _ _ _ Ha). reflexivity.
  - cbn [log]. rewrite Hlogb. subst wa. cbn [log].
    rewrite <- !app_assoc. reflexivity.
Qed.



End AskSuccess.

Lemma services_loaded (c : nat -> list message -> pyexn + pystr) :
  @loaded (Services.with_complete c) Demo.p0 (Services.w0 c).
Proof.
  repeat constructor; eexists; (split; [vm_compute; reflexivity|]);
    vm_compute; eauto.
Qed.

Lemma services_assignment_runs (c : nat -> list message -> pyexn + pystr) :
  @runs_without_result (Services.with_complete c) Demo.CODE_X.
Proof.
  intros safe lc li ll h. rewrite (proj1 demo_sanitize_programs).
  eexists _, _. split; [apply demo_exec_x|].
  rewrite lookup_insert_ne by (vm_compute; discriminate).
  apply (@namespace_of_result (Services.with_complete c)).
Qed.


Lemma ask_answers_from_placeholder_witness :
  exists w',
    @ask (Services.with_complete Services.assigns_x) Demo.p0
      (cps "How many clients?") None 2 (Services.w0 Services.assigns_x)
    = (inr (Response Demo.CODE_X Demo.CODE_X NO_RESULT None), w').
Proof.
  destruct (@ask_answers_from_placeholder
              (Services.with_complete Services.assigns_x) Demo.p0
              (cps "How many clients?") None 2 (Services.w0 Services.assigns_x)
              Demo.CODE_X Demo.CODE_X Demo.CODE_X
              (services_loaded _) ltac:(lia) eq_refl
              ltac:(vm_compute; reflexivity)
              (services_assignment_runs _) eq_refl)
    as (ns & out & w' & Hask & _).
  exists w'. rewrite Hask. reflexivity.
Defined.



(** ** Construction of the pipeline *)

Section Construction.
Context `{E : Externals}.

(** The three fresh objects [__init__] allocates for the loaded tables. *)
Lemma init_allocation (w : world) (dc di dl : frame) :
  let lc := fresh (dom (heap w)) in
  let h1 := <[lc := dc]> (heap w) in
  let li := fresh (dom h1) in
  let h2 := <[li := di]> h1 in
  let ll := fresh (dom h2) in
  let h3 := <[ll := dl]> h2 in
  h3 !! lc = Some dc /\ h3 !! li = Some di /\ h3 !! ll = Some dl
  /\ NoDup [lc; li; ll]
  /\ Forall (fun x => x ∉ dom (heap w)) [lc; li; ll]
  /\ (forall x, x ∈ dom (heap w) -> h3 !! x = heap w !! x).
Proof.
  intros lc h1 li h2 ll h3.
  assert (lc ∉ dom (heap w)) as Hc by apply is_fresh.
  assert (li ∉ dom h1) as Hi by apply is_fresh.
  assert (ll ∉ dom h2) as Hl by apply is_fresh.
  assert (li <> lc) as Hic.
  { intros Heq. apply Hi. rewrite Heq. unfold h1. rewrite dom_insert_L.
    set_solver. }
  assert (ll <> li) as Hli.
  { intros Heq. apply Hl. rewrite Heq. unfold h2. rewrite dom_insert_L.
    set_solver. }
  assert (ll <> lc) as Hlc.
  { intros Heq. apply Hl. rewrite Heq. unfold h2, h1. rewrite !dom_insert_L.
    set_solver. }
  split.
  { unfold h3, h2, h1. rewrite !lookup_insert_ne by auto.
    apply lookup_insert_eq. }
  split.
  { unfold h3, h2. rewrite lookup_insert_ne by auto. apply lookup_insert_eq. }
  split; [apply lookup_insert_eq|].
  split; [repeat constructor; set_solver|].
  split.
  - repeat constructor; [exact Hc| |].
    + intros Hin. apply Hi. unfold h1. rewrite dom_insert_L. set_solver.
    + intros Hin. apply Hl. unfold h2, h1. rewrite !dom_insert_L. set_solver.
  - intros x Hx. unfold h3, h2, h1.
    rewrite !lookup_insert_ne; [reflexivity| | |]; intros Heq.
    + apply Hc. rewrite Heq. exact Hx.
    + apply Hi. rewrite Heq. unfold h1. rewrite dom_insert_L. set_solver.
    + apply Hl. rewrite Heq. unfold h2, h1. rewrite !dom_insert_L. set_solver.
Qed.

(** X11: constructing a pipeline fails exactly when the client constructor
    rejects the key, when loading the tables fails, or when the schema
    description of the loaded tables fails, and then with that very
    exception; otherwise it returns a pipeline with the given model whose
    schema is the description of the loaded tables, and which holds the
    three loaded tables as three new, pairwise distinct objects of the
    store under the names [clients], [invoices] and [line_items]. In every
    case no object that was there changes, nothing is requested or
    executed, and the shared builtins dictionary is left as it was. *)
Theorem init_loads_tables (api_key model : pystr) (w : world) :
  let description dc di dl :=
    DataLoader.get_schema_description
      (<[cps "line_items" := frame_view dl]>
         (<[cps "invoices" := frame_view di]>
            {[ cps "clients" := frame_view dc ]})) in
  preserves w (init api_key model w).2
  /\ log (init api_key model w).2 = log w
  /\ builtins (init api_key model w).2 = builtins w
  /\ match init api_key model w with
     | (inl e, w') =>
         groq_client api_key = Some e
         \/ (groq_client api_key = None /\ load_dataframes = inl e)
         \/ (groq_client api_key = None
             /\ exists dc di dl,
                  load_dataframes = inr (dc, di, dl)
                  /\ description dc di dl = inl e)
     | (inr p, w') =>
         groq_client api_key = None
         /\ exists dc di dl lc li ll,
              load_dataframes = inr (dc, di, dl)
              /\ description dc di dl = inr (p_schema p)
              /\ p_model p = model
              /\ loaded p w'
              /\ p_dfs p !! cps "clients" = Some lc
              /\ p_dfs p !! cps "invoices" = Some li
              /\ p_dfs p !! cps "line_items" = Some ll
              /\ heap w' !! lc = Some dc
              /\ heap w' !! li = Some di
              /\ heap w' !! ll = Some dl
              /\ NoDup [lc; li; ll]
              /\ Forall (fun x => x ∉ dom (heap w)) [lc; li; ll]
     end.
Proof.
  intros description. unfold init.
  destruct (groq_client api_key) as [e|] eqn:Hg.
  { cbn [snd]. split; [intros x _; reflexivity|]. repeat split. now left. }
  destruct load_dataframes as [e|[[dc di] dl]] eqn:Hload.
  { cbn [snd]. split; [intros x _; reflexivity|]. repeat split.
    right. left. split; reflexivity. }
  destruct (init_allocation w dc di dl)
    as (Hvc & Hvi & Hvl & Hnd & Hfresh & Hpres).
  cbv zeta.
  set (lc := fresh (dom (heap w))) in *.
  set (h1 := <[lc := dc]> (heap w)) in *.
  set (li := fresh (dom h1)) in *.
  set (h2 := <[li := di]> h1) in *.
  set (ll := fresh (dom h2)) in *.
  fold (description dc di dl).
  destruct (description dc di dl) as [e|schema] eqn:Hd; cbn [snd heap log builtins].
  { split; [exact Hpres|]. repeat split.
    right. right. split; [reflexivity|]. exists dc, di, dl.
    split; [reflexivity | exact Hd]. }
  assert (<[cps "line_items" := ll]>
            (<[cps "invoices" := li]> ({[cps "clients" := lc]} : gmap pystr loc))
          !! cps "clients" = Some lc) as Hk1.
  { rewrite !lookup_insert_ne by (vm_compute; discriminate).
    apply lookup_singleton_eq. }
  assert (<[cps "line_items" := ll]>
            (<[cps "invoices" := li]> ({[cps "clients" := lc]} : gmap pystr loc))
          !! cps "invoices" = Some li) as Hk2.
  { rewrite lookup_insert_ne by (vm_compute; discriminate).
    apply lookup_insert_eq. }
  split; [exact Hpres|]. split; [reflexivity|]. split; [reflexivity|].
  split; [reflexivity|].
  exists dc, di, dl, lc, li, ll. cbn [p_model p_dfs p_schema heap].
  split; [reflexivity|]. split; [exact Hd|]. split; [reflexivity|].
  split.
  { unfold loaded, TABLES. cbn [p_dfs heap].
    constructor; [|constructor; [|constructor; [|constructor]]].
    - exists lc. split; [exact Hk1 | rewrite Hvc; eauto].
    - exists li. split; [exact Hk2 | rewrite Hvi; eauto].
    - exists ll. split; [apply lookup_insert_eq | rewrite Hvl; eauto]. }
  split; [exact Hk1|]. split; [exact Hk2|].
  split; [apply lookup_insert_eq|].
  split; [exact Hvc|]. split; [exact Hvi|]. split; [exact Hvl|].
  split; [exact Hnd | exact Hfresh].
Qed.

End Construction.

(** ** The transcript of the chat page *)

Section Transcript.
Import App Chat.

Lemma transcript_then_user_head (xs : list exchange) (prompt : pystr) :
  exists q rest,
    transcript_of xs ++ [user_msg prompt] = user_msg q :: rest.
Proof.
  destruct xs as [|[q r|q] xs]; cbn; eauto.
Qed.

Lemma pairs_transcript (xs : list exchange) (prompt : pystr) :
  pairs (transcript_of xs ++ [user_msg prompt]) = omap exchange_turn xs.
Proof.
  induction xs as [|x xs IH]; [reflexivity|].
  change (transcript_of (x :: xs)) with (exchange_msgs x ++ transcript_of xs).
  rewrite <- app_assoc.
  destruct (transcript_then_user_head xs prompt) as (q' & rest & Hhead).
  destruct x as [q r|q]; cbn [exchange_msgs app omap exchange_turn].
  - rewrite pairs_two. change (is_pair (user_msg q) (assistant_msg r)) with true.
    cbn iota. rewrite IH. reflexivity.
  - rewrite Hhead, pairs_two.
    change (is_pair (user_msg q) (user_msg q')) with false. cbn iota.
    rewrite <- Hhead. exact IH.
Qed.

(** X12: on a transcript made of earlier prompts, answered or not, one
    submitted prompt calls [ask] with exactly the answered exchanges as
    history, in order, each with its answer, code and data; afterwards the
    transcript is the old one followed by the new exchange (without an
    assistant message when [ask] raised). *)
Theorem submit_keeps_transcript `{E : Externals} (self : pipeline)
  (xs : list exchange) (prompt : pystr) (w : world) :
  submit self (transcript_of xs) prompt w
  = match ask self prompt (Some (omap exchange_turn xs)) 2 w with
    | (inr result, w') =>
        ((transcript_of (xs ++ [Answered prompt result]), None), w')
    | (inl e, w') =>
        ((transcript_of (xs ++ [Unanswered prompt]), Some e), w')
    end.
Proof.
  unfold submit. rewrite build_history_pairs, pairs_transcript.
  destruct (ask self prompt (Some (omap exchange_turn xs)) 2 w) as [[e|r] w'].
  - unfold transcript_of. rewrite List.map_app, concat_app.
    cbn [List.map concat exchange_msgs]. rewrite ?app_nil_r. reflexivity.
  - unfold transcript_of. rewrite List.map_app, concat_app.
    cbn [List.map concat exchange_msgs]. rewrite ?app_nil_r, <- ?app_assoc.
    reflexivity.
Qed.

Lemma pairs_length_bounded (n : nat) (msgs : list chat_msg) :
  (length msgs <= n)%nat -> (2 * length (pairs msgs) <= length msgs)%nat.
Proof.
  revert msgs. induction n as [|n IH]; intros msgs Hlen.
  - destruct msgs; cbn in *; lia.
  - destruct msgs as [|q [|a rest]]; [cbn; lia | cbn; lia |].
    rewrite pairs_two. cbn [length] in *.
    destruct (is_pair q a).
    + cbn [length]. specialize (IH rest ltac:(lia)). lia.
    + specialize (IH (a :: rest) ltac:(cbn; lia)). cbn [length] in IH. lia.
Qed.

(** X13: every turn of the distilled history uses up two messages of the
    transcript: there are at most half as many turns as messages. *)
Theorem build_history_length (msgs : list chat_msg) :
  (2 * length (build_history msgs) <= length msgs)%nat.
Proof.
  rewrite build_history_pairs. apply (pairs_length_bounded (length msgs)). lia.
Qed.

End Transcript.

(** ** The size of an excerpt *)

(** X14: whatever the size of a turn's data, the excerpt shown to the model
    has at most 2016 characters, and the message that carries it at most
    2041. *)
Theorem excerpt_is_bounded (preview : pystr) :
  (length (preview_of preview) <= 2016)%nat
  /\ (length (code_returned (preview_of preview)) <= 2041)%nat.
Proof.
  assert (length (preview_of preview) <= 2016)%nat as H.
  { unfold preview_of.
    destruct (Nat.ltb_spec 2000 (length preview)) as [Hlt|Hge].
    - rewrite length_app, length_take.
      change (length TRUNCATED) with 16%nat. lia.
    - lia. }
  split; [exact H|].
  unfold code_returned.
  repeat (rewrite ?length_app; cbn [length]).
  change (length (cps "[Code returned:")) with 15%nat.
  change (length FENCE) with 3%nat.
  change (length (cps "]")) with 1%nat. lia.
Qed.

(** ** The report of the batch runner *)

Section Report.
Import RunTests.

Lemma replace_char_app (old : N) (new s t : pystr) :
  replace_char old new (s ++ t) = replace_char old new s ++ replace_char old new t.
Proof. unfold replace_char. rewrite List.map_app, concat_app. reflexivity. Qed.

Lemma replace_char_cons (old : N) (new : pystr) (c : N) (s : pystr) :
  replace_char old new (c :: s)
  = (if c =? old then new else [c]) ++ replace_char old new s.
Proof. reflexivity. Qed.

(** What [a_esc] puts in the place of one character. *)
Definition escaped_char (c : N) : pystr :=
  if c =? PIPE then [BACKSLASH; PIPE]
  else if c =? NL then cps "<br>" else [c].

Lemma a_esc_cons (c : N) (a : pystr) :
  a_esc (c :: a) = escaped_char c ++ a_esc a.
Proof.
  unfold a_esc, escaped_char. rewrite (replace_char_cons PIPE).
  rewrite replace_char_app. f_equal.
  destruct (N.eqb_spec c PIPE) as [->|Hp]; [reflexivity|].
  rewrite replace_char_cons. cbn [replace_char List.map concat].
  rewrite app_nil_r. reflexivity.
Qed.

Lemma escaped_char_shape (c : N) :
  NL ∉ escaped_char c
  /\ (forall pre post, escaped_char c = pre ++ PIPE :: post ->
        pre = [BACKSLASH]).
Proof.
  unfold escaped_char.
  destruct (N.eqb_spec c PIPE) as [->|Hp].
  - split.
    + intros H. apply list_elem_of_In in H. cbn in H.
      destruct H as [H|[H|[]]]; discriminate.
    + intros [|x [|y pre]] post H; cbn in H.
      * discriminate.
      * injection H as <- _. reflexivity.
      * injection H as _ _ H. destruct pre; discriminate.
  - destruct (N.eqb_spec c NL) as [->|Hn].
    + split.
      * intros H. apply list_elem_of_In in H. vm_compute in H.
        repeat (destruct H as [H|H]; [discriminate|]). exact H.
      * intros pre post H.
        assert (In PIPE (cps "<br>")) as Hin
          by (rewrite H; apply in_elt).
        vm_compute in Hin.
        repeat (destruct Hin as [Hin|Hin]; [discriminate|]). contradiction.
    + split.
      * intros H. apply list_elem_of_singleton in H. congruence.
      * intros [|x pre] post H; cbn in H.
        -- injection H as -> _. contradiction.
        -- injection H as _ H. destruct pre; discriminate.
Qed.

Lemma a_esc_no_newline (a : pystr) : NL ∉ a_esc a.
Proof.
  induction a as [|c a IH]; [apply not_elem_of_nil|].
  rewrite a_esc_cons, elem_of_app. intros [H|H]; [|exact (IH H)].
  exact (proj1 (escaped_char_shape c) H).
Qed.

Lemma a_esc_pipes_escaped (a : pystr) : pipes_escaped (a_esc a).
Proof.
  induction a as [|c a IH]; intros pre post H.
  - destruct pre; discriminate.
  - rewrite a_esc_cons in H.
    apply app_eq_app in H as [l [[H1 H2]|[H1 H2]]].
    + destruct l as [|x l].
      * rewrite app_nil_l in H2. symmetry in H2.
        destruct (IH [] post H2) as [pre' Hpre]. destruct pre'; discriminate.
      * injection H2 as <- _.
        rewrite (proj2 (escaped_char_shape c) pre l H1).
        exists []. reflexivity.
    + destruct (IH l post H2) as [pre' ->].
      exists (escaped_char c ++ pre'). rewrite H1, app_assoc. reflexivity.
Qed.

(** X15: in an escaped answer cell there is no newline, and every [|] is
    preceded by a backslash, whatever the answer contains. *)
Theorem answer_cell_is_escaped (a : pystr) :
  NL ∉ a_esc a /\ pipes_escaped (a_esc a).
Proof. split; [apply a_esc_no_newline | apply a_esc_pipes_escaped]. Qed.

Lemma newlines_app (s t : pystr) :
  newlines (s ++ t) = (newlines s + newlines t)%nat.
Proof. unfold newlines. rewrite List.filter_app, length_app. reflexivity. Qed.

Lemma newlines_absent (s : pystr) : NL ∉ s -> newlines s = 0%nat.
Proof.
  induction s as [|c s IH]; intros H; [reflexivity|].
  unfold newlines. cbn [List.filter].
  destruct (N.eqb_spec c NL) as [->|Hne]; [set_solver|].
  apply IH. set_solver.
Qed.

Lemma q_esc_newlines (q : pystr) : newlines (q_esc q) = newlines q.
Proof.
  unfold q_esc. induction q as [|c q IH]; [reflexivity|].
  rewrite replace_char_cons, newlines_app, IH.
  change (c :: q) with ([c] ++ q). rewrite newlines_app. f_equal.
  destruct (N.eqb_spec c PIPE) as [->|Hp]; reflexivity.
Qed.

Lemma table_row_newlines (q a : pystr) :
  newlines (table_row (q, a)) = S (newlines q).
Proof.
  unfold table_row. cbn [fst snd].
  rewrite !newlines_app, q_esc_newlines,
    (newlines_absent (a_esc a) (a_esc_no_newline a)).
  change (newlines (cps "| ")) with 0%nat.
  change (newlines (cps " | ")) with 0%nat.
  change (newlines (cps " |")) with 0%nat.
  change (newlines [NL]) with 1%nat. lia.
Qed.

Lemma report_newlines (rows : list (pystr * pystr)) :
  Forall (fun q => newlines q = 0%nat) (List.map fst rows) ->
  newlines (report rows) = (4 + length rows)%nat.
Proof.
  intros Hq. unfold report. rewrite !newlines_app.
  assert (newlines (concat (List.map table_row rows)) = length rows) as ->.
  { induction rows as [|[q a] rows IH]; [reflexivity|].
    cbn [List.map concat length]. rewrite newlines_app, table_row_newlines.
    inversion Hq as [|? ? Hq1 Hq2]; subst. cbn [fst] in Hq1.
    rewrite Hq1, (IH Hq2). reflexivity. }
  reflexivity.
Qed.

Lemma questions_single_line :
  Forall (fun q => newlines q = 0%nat) QUESTIONS.
Proof. unfold QUESTIONS. repeat constructor. Qed.

Lemma ask_all_rows `{E : Externals} (self : pipeline) (qs : list pystr)
  (w : world) (rows : list (pystr * pystr)) (w' : world) :
  ask_all self qs w = (inr rows, w') -> List.map fst rows = qs.
Proof.
  revert w rows w'. induction qs as [|q qs IH]; intros w rows w'; cbn [ask_all].
  - intros [= <- _]. reflexivity.
  - unfold bind at 1.
    destruct (ask self q None 2 w) as [[e|r] w1]; [discriminate|].
    unfold bind, ret.
    destruct (ask_all self qs w1) as [[e|rows'] w2] eqn:Hrec; [discriminate|].
    intros [= <- _]. cbn. f_equal. eapply IH, Hrec.
Qed.

(** X16: without a key the runner exits at once, the world untouched; with
    a key, whenever it gets to write the report, the report has one row per
    question, in the order of the question list, and is a text of exactly
    19 lines: four of header and one for each of the 15 questions. *)
Theorem main_writes_one_row_per_question `{E : Externals} (w : world) :
  main [] w = (inl (PyExn false (cps "SystemExit: 1")), w)
  /\ forall c key,
       match main (c :: key) w with
       | (inr text, _) =>
           exists rows,
             text = report rows /\ List.map fst rows = QUESTIONS
             /\ newlines text = 19%nat
       | (inl _, _) => True
       end.
Proof.
  split; [reflexivity|]. intros c key. unfold main.
  unfold bind at 1.
  destruct (init (c :: key) (cps "llama-3.3-70b-versatile") w)
    as [[e|p] w1]; [exact I|].
  unfold bind, ret.
  destruct (ask_all p QUESTIONS w1) as [[e|rows] w2] eqn:Hall; [exact I|].
  exists rows. split; [reflexivity|].
  pose proof (ask_all_rows p QUESTIONS w1 rows w2 Hall) as Hrows.
  split; [exact Hrows|].
  rewrite report_newlines by (rewrite Hrows; apply questions_single_line).
  rewrite <- (length_map fst rows), Hrows. reflexivity.
Qed.

End Report.

(** ** The schema description *)

Section Schema.
Import DataLoader.

Lemma join_infix (sep : pystr) (lines : list pystr) (l : pystr) :
  In l lines -> exists a b, join sep lines = a ++ l ++ b.
Proof.
  induction lines as [|x lines IH]; intros Hin; [contradiction|].
  destruct lines as [|y lines].
  - destruct Hin as [->|[]]. exists [], []. cbn. rewrite app_nil_r. reflexivity.
  - change (join sep (x :: y :: lines)) with (x ++ sep ++ join sep (y :: lines)).
    destruct Hin as [->|Hin].
    + exists [], (sep ++ join sep (y :: lines)). reflexivity.
    + destruct (IH Hin) as (a & b & ->).
      exists (x ++ sep ++ a), b. rewrite <- !app_assoc. reflexivity.
Qed.

Lemma table_lines_columns (dfs : gmap pystr table) (name key : pystr)
  (ls : list pystr) (df : table) (c : column) :
  table_lines dfs name key = inr ls -> dfs !! key = Some df ->
  In c (tb_columns df) -> In (column_line c) ls.
Proof.
  unfold table_lines. intros H Hdf Hc. rewrite Hdf in H.
  destruct (unique_line name df) as [e|extra]; [discriminate|].
  assert (forall x y : list pystr, inr (A := pyexn) x = inr y -> x = y) as Hinj
    by (intros x y [=]; assumption).
  apply Hinj in H. subst ls. apply in_or_app. right. apply in_or_app. left.
  apply in_map, Hc.
Qed.

(** X17: when the description is built, it contains, for every column of
    each of the three tables, the line that names the column and its
    type. *)
Theorem schema_lists_every_column (dfs : gmap pystr table) (text : pystr)
  (key : pystr) (df : table) (c : column) :
  get_schema_description dfs = inr text ->
  In key [cps "clients"; cps "invoices"; cps "line_items"] ->
  dfs !! key = Some df ->
  In c (tb_columns df) ->
  exists a b, text = a ++ column_line c ++ b.
Proof.
  unfold get_schema_description, schema_lines. cbn [tables_lines].
  intros H Hkey Hdf Hc.
  destruct (table_lines dfs (cps "clients") (cps "clients")) as [e|l1] eqn:H1;
    [discriminate|].
  destruct (table_lines dfs (cps "invoices") (cps "invoices")) as [e|l2] eqn:H2;
    [discriminate|].
  destruct (table_lines dfs (cps "line_items") (cps "line_items"))
    as [e|l3] eqn:H3; [discriminate|].
  assert (forall x y : pystr, inr (A := pyexn) x = inr y -> x = y) as Hinj
    by (intros x y [=]; assumption).
  apply Hinj in H. subst text. apply join_infix.
  apply in_or_app. left.
  destruct Hkey as [<-|[<-|[<-|[]]]].
  - apply in_or_app. left. apply in_or_app. left. apply in_or_app. right.
    eapply table_lines_columns; eauto.
  - apply in_or_app. left. apply in_or_app. right.
    eapply table_lines_columns; eauto.
  - apply in_or_app. right. eapply table_lines_columns; eauto.
Qed.

Lemma find_no_column (cols : list column) (name : pystr) :
  Forall (fun c => c_name c <> name) cols ->
  List.find (fun c => eqb (c_name c) name) cols = None.
Proof.
  induction 1 as [|c cols Hc _ IH]; [reflexivity|].
  cbn [List.find]. unfold eqb at 1.
  rewrite bool_decide_eq_false_2 by exact Hc. exact IH.
Qed.

(** X18: when the [clients] table has no [country] column, building the
    description raises [KeyError] for that name instead of returning a
    text. *)
Theorem schema_needs_country_column (dfs : gmap pystr table) (df : table) :
  dfs !! cps "clients" = Some df ->
  Forall (fun c => c_name c <> cps "country") (tb_columns df) ->
  get_schema_description dfs = inl (KeyError (cps "country")).
Proof.
  intros Hdf Hcols.
  unfold get_schema_description, schema_lines. cbn [tables_lines].
  unfold table_lines at 1. rewrite Hdf.
  unfold unique_line. change (eqb (cps "clients") (cps "clients")) with true.
  cbn iota. unfold get_column. rewrite find_no_column by exact Hcols.
  reflexivity.
Qed.

End Schema.

Lemma schema_lists_every_column_witness :
  exists text a b,
    DataLoader.get_schema_description Tables.dfs = inr text
    /\ text = a ++ cps "    - quantity (int64)" ++ b.
Proof.
  destruct (DataLoader.get_schema_description Tables.dfs) as [e|text] eqn:H;
    [vm_compute in H; discriminate|].
  destruct (schema_lists_every_column Tables.dfs text (cps "line_items")
              Tables.line_items
              (DataLoader.Column (cps "quantity") (cps "int64") (cps "[3]"))
              H ltac:(cbn; auto) ltac:(vm_compute; reflexivity)
              ltac:(cbn; auto)) as (a & b & Htext).
  exists text, a, b. split; [reflexivity | exact Htext].
Defined.

Lemma schema_needs_country_column_witness :
  DataLoader.get_schema_description Tables.dfs_no_country
  = inl (KeyError (cps "country")).
Proof.
  apply (schema_needs_country_column Tables.dfs_no_country
           (DataLoader.Table
              [DataLoader.Column (cps "client_id") (cps "object") (cps "['C001']")]
              1 (cps "C001"))).
  - vm_compute. reflexivity.
  - repeat constructor. cbn. vm_compute. discriminate.
Defined.

(** ** Exhaustion at any budget *)

Section Exhaustion.
Context `{E : Externals}.

Lemma ask_loop_all_fail (self : pipeline) (n : nat) (question : pystr)
  (history : option (list turn)) (last_error : option pystr) (code : pystr)
  (w : world) :
  loaded self w -> always_fails ->
  exists code' err w',
    ask_loop self n question history last_error code w
    = (inr (Response APOLOGY code' [] err), w')
    /\ count_execs (log w') = (count_execs (log w) + n)%nat
    /\ count_completions (log w') = (count_completions (log w) + n)%nat
    /\ (n = 0%nat -> err = last_error /\ code' = code)
    /\ (n <> 0%nat -> exists e, err = Some (format_exc e)).
Proof.
  intros Hl Hfail. revert last_error code w Hl.
  induction n as [|n IH]; intros last_error code w Hl.
  - exists code, last_error, w. cbn. repeat split; try lia; try congruence.
  - cbn [ask_loop].
    set (prompt := match last_error with
                   | Some err => fix_prompt err question
                   | None => question
                   end).
    destruct (Hfail (count_completions (log w))
                (code_gen_messages (p_schema self) prompt history))
      as (r1 & c1 & Hr1 & Hu1 & Hx1).
    pose proof (generate_code_answered self prompt history w r1 c1 Hr1 Hu1) as Hg.
    set (wa := World (heap w)
                 (log w ++ [EvComplete
                              (code_gen_messages (p_schema self) prompt history)
                              (inr r1)]) (builtins w)) in *.
    assert (loaded self wa) as Hla by exact Hl.
    destruct (execute_code_fails self c1 wa Hla Hx1)
      as (ns1 & e1 & wb & He1 & Hlog1 & Hlb).
    destruct (IH (Some (format_exc e1)) c1 wb Hlb)
      as (code' & err & w' & Hrec & Hce & Hcc & H0 & Hpos).
    exists code', err, w'.
    rewrite (bind_inr _ _ _ _ _ Hg), (bind_inr _ _ _ _ _ He1). cbn beta iota.
    split; [exact Hrec|].
    assert (count_execs (log wb) = S (count_execs (log w))) as Hwe.
    { rewrite Hlog1. subst wa. cbn [log]. rewrite !count_execs_app. cbn. lia. }
    assert (count_completions (log wb) = S (count_completions (log w))) as Hwc.
    { rewrite Hlog1. subst wa. cbn [log]. rewrite !count_completions_app.
      cbn. lia. }
    split; [lia|]. split; [lia|]. split; [lia|].
    intros _. destruct n as [|n'].
    + destruct (H0 eq_refl) as [-> _]. eauto.
    + apply Hpos. lia.
Qed.

(** X19: with any positive budget and generated code whose execution
    always fails, [ask] makes exactly as many executions and as many
    completion requests as the budget, and returns the apology with empty
    data and a trace as error. *)
Theorem ask_exhausts_any_budget (self : pipeline) (question : pystr)
  (history : option (list turn)) (max_retries : Z) (w : world) :
  loaded self w -> always_fails -> (0 < max_retries)%Z ->
  exists code e w',
    ask self question history max_retries w
    = (inr (Response APOLOGY code [] (Some (format_exc e))), w')
    /\ count_execs (log w') = (count_execs (log w) + Z.to_nat max_retries)%nat
    /\ count_completions (log w')
       = (count_completions (log w) + Z.to_nat max_retries)%nat.
Proof.
  intros Hl Hfail Hn. unfold ask.
  destruct (ask_loop_all_fail self (Z.to_nat max_retries) question
              (Some (default [] history)) None [] w Hl Hfail)
    as (code & err & w' & Hask & He & Hc & _ & Hpos).
  destruct (Hpos ltac:(lia)) as [e ->].
  exists code, e, w'. auto.
Qed.

End Exhaustion.

Lemma ask_exhausts_any_budget_witness :
  exists code e w',
    @ask Demo.demo Demo.p0 (cps "How many clients?") None 5 Demo.w0
    = (inr (Response APOLOGY code [] (Some (format_exc e))), w')
    /\ count_execs (log w') = (count_execs (log Demo.w0) + Z.to_nat 5)%nat
    /\ count_completions (log w')
       = (count_completions (log Demo.w0) + Z.to_nat 5)%nat.
Proof.
  apply (@ask_exhausts_any_budget Demo.demo Demo.p0).
  - exact demo_loaded.
  - exact demo_always_fails.
  - lia.
Defined.

(** ** The answer-synthesis request *)

(** X20: the request for the answer has two messages per turn of the
    history between the system message and the final user message; its
    roles are system, then user and assistant in alternation, then user;
    of each turn it carries the question and the answer only. *)
Theorem answer_request_alternates (question data_str : pystr)
  (history : list turn) :
  List.map role (answer_messages question data_str (Some history))
  = ROLE_SYSTEM
    :: concat (List.map (fun _ => [ROLE_USER; ROLE_ASSISTANT]) history)
    ++ [ROLE_USER]
  /\ List.map content
       (removelast (answer_messages question data_str (Some history)))
     = ANSWER_GEN_SYSTEM
       :: concat (List.map (fun t => [t_question t; t_answer t]) history)
  /\ length (answer_messages question data_str (Some history))
     = (2 * length history + 2)%nat.
Proof.
  unfold answer_messages.
  change (default [] (Some history)) with history.
  rewrite (foldl_append
             (fun t => [Message ROLE_USER (t_question t);
                        Message ROLE_ASSISTANT (t_answer t)])).
  split; [|split].
  - rewrite <- app_assoc. cbn [app List.map]. rewrite List.map_app.
    cbn [List.map role]. do 2 f_equal.
    induction history as [|t history IH]; [reflexivity|].
    cbn [List.map concat app role]. rewrite IH. reflexivity.
  - rewrite removelast_last. cbn [List.map app content]. f_equal.
    induction history as [|t history IH]; [reflexivity|].
    cbn [List.map concat app content]. rewrite IH. reflexivity.
  - rewrite length_app. cbn [length app].
    assert (length (concat (List.map
                              (fun t => [Message ROLE_USER (t_question t);
                                         Message ROLE_ASSISTANT (t_answer t)])
                              history)) = (2 * length history)%nat) as ->.
    { induction history as [|t history IH]; [reflexivity|].
      cbn [List.map concat length app]. rewrite IH. lia. }
    lia.
Qed.
